(** * receipt-ocr: the post-processing pipeline

    A shallow embedding of [src/processors/parser.ts] (response parsing,
    per-item normalisation, attachment merging) and of [src/extract.ts]
    (the verification orchestrator and the public projection), with the
    properties of the specification stated and settled over it.

    Conventions of the embedding:
    - a JavaScript [number] is an IEEE-754 binary64 value, i.e. Rocq's
      primitive [float]; arithmetic and comparisons are the primitive ones;
    - a JavaScript string is a sequence of code units; the model covers the
      code units below 256 and uses [string];
    - [undefined] is [None]; a thrown [Error] is the [inl] of a sum and
      carries the error's message;
    - the JavaScript runtime's [JSON.parse] and the external collaborators
      (oracle client, batch verification source, caller's callback) are not
      part of the repository's logic: they are section variables, and every
      theorem holds for all of them;
    - an [async] function is run to completion: each [await] is the call
      of the awaited collaborator, in program order. *)

From Stdlib Require Import ZArith Ascii String Sorted.
From Stdlib Require Import DecimalString DecimalNat DecimalFacts.
From Stdlib Require Import Floats.PrimFloat Floats.SpecFloat Floats.FloatOps.
From stdpp Require Import base option list strings gmap.

Local Open Scope string_scope.
Set Warnings "-register-all".

(** ** JavaScript values *)

Module Js.

(** What [JSON.parse] can return. An object keeps its members as an
    association list with one binding per key ([JSON.parse] has already
    settled duplicate keys); [assoc] reads the first binding of a key. *)
Inductive json :=
| JNull
| JBool (b : bool)
| JNum (x : float)
| JStr (s : string)
| JArr (elems : list json)
| JObj (members : list (string * json)).

Fixpoint assoc (k : string) (members : list (string * json)) : option json :=
  match members with
  | [] => None
  | (k', v) :: rest => if String.eqb k k' then Some v else assoc k rest
  end.

(** Property read [v.k] for the property names the code uses (none of them
    is inherited from a prototype): [undefined] on anything but an object
    that has the member. *)
Definition get (k : string) (v : json) : option json :=
  match v with
  | JObj members => assoc k members
  | _ => None
  end.

(** [x] is falsy as a number: [0], [-0] or [NaN]. *)
Definition num_falsy (x : float) : bool :=
  (PrimFloat.eqb x 0 || PrimFloat.is_nan x)%bool.

(** [Boolean(v)] for a value read from a parsed payload. *)
Definition truthy (v : option json) : bool :=
  match v with
  | None => false
  | Some JNull => false
  | Some (JBool b) => b
  | Some (JNum x) => negb (num_falsy x)
  | Some (JStr s) => negb (String.eqb s "")
  | Some (JArr _) => true
  | Some (JObj _) => true
  end.

(** [Boolean(s)] for a string that may be [undefined]. *)
Definition str_truthy (s : option string) : bool :=
  match s with
  | Some s => negb (String.eqb s "")
  | None => false
  end.

(** [x || 0] for an optional number. *)
Definition orZero (x : option float) : float :=
  match x with
  | Some d => if num_falsy d then 0%float else d
  | None => 0%float
  end.

(** [typeof v === 'number' ? v : undefined] *)
Definition asNumber (v : option json) : option float :=
  match v with
  | Some (JNum x) => Some x
  | _ => None
  end.

(** [Number.isInteger]: finite and without a fractional part. *)
Definition isInteger (x : float) : bool :=
  match Prim2SF x with
  | S754_zero _ => true
  | S754_finite _ m e =>
      (0 <=? e)%Z || (Z.land (Zpos m) (Z.ones (- e)) =? 0)%Z
  | _ => false
  end.

(** ECMAScript white space and line terminators below code unit 256: the
    characters of [\s] and the ones [String.prototype.trim] removes. *)
Definition isWhiteSpace (c : ascii) : bool :=
  let n := nat_of_ascii c in
  ((9 <=? n) && (n <=? 13) || (n =? 32) || (n =? 160))%nat.

Fixpoint trimStart (s : string) : string :=
  match s with
  | String c s' => if isWhiteSpace c then trimStart s' else s
  | EmptyString => EmptyString
  end.

Definition trimEnd (s : string) : string :=
  String.rev (trimStart (String.rev s)).

Definition trim (s : string) : string := trimEnd (trimStart s).

(** [Some (before, after)] around the first occurrence of [pat] in [s]. *)
Fixpoint splitAt (pat s : string) : option (string * string) :=
  if String.prefix pat s
  then Some (EmptyString, String.substring (String.length pat)
                            (String.length s - String.length pat) s)
  else match s with
       | EmptyString => None
       | String c s' =>
           match splitAt pat s' with
           | Some (b, a) => Some (String c b, a)
           | None => None
           end
       end.

End Js.

(** ** Data model ([src/types.ts] and the parser's [RawReceiptItem]) *)

(** The parser's transient record: a line item plus the attachment
    markers. [attachmentType] is copied from the payload unchecked, so it
    is kept as the raw value. *)
Module RawReceiptItem.
Record t := mk {
  name : string;
  price : float;
  quantity : float;
  needsVerification : bool;
  hasTax : bool;
  taxAmount : option float;
  deposit : option float;
  discount : option float;
  isAttachment : option bool;
  attachmentType : option Js.json;
  attachedTo : option float;
}.

Definition set_deposit (d : option float) (i : t) : t :=
  mk (name i) (price i) (quantity i) (needsVerification i) (hasTax i)
     (taxAmount i) d (discount i)
     (isAttachment i) (attachmentType i) (attachedTo i).

Definition set_discount (d : option float) (i : t) : t :=
  mk (name i) (price i) (quantity i) (needsVerification i) (hasTax i)
     (taxAmount i) (deposit i) d
     (isAttachment i) (attachmentType i) (attachedTo i).
End RawReceiptItem.

Module InternalReceiptItem.
Record t := mk {
  name : string;
  price : float;
  quantity : float;
  hasTax : bool;
  taxAmount : option float;
  deposit : option float;
  discount : option float;
  needsVerification : bool;
}.

Definition set_name (n : string) (i : t) : t :=
  mk n (price i) (quantity i) (hasTax i) (taxAmount i) (deposit i)
     (discount i) (needsVerification i).

Definition set_needsVerification (b : bool) (i : t) : t :=
  mk (name i) (price i) (quantity i) (hasTax i) (taxAmount i) (deposit i)
     (discount i) b.
End InternalReceiptItem.

Module ReceiptItem.
Record t := mk {
  name : string;
  price : float;
  quantity : float;
  hasTax : bool;
  taxAmount : option float;
  deposit : option float;
  discount : option float;
}.
End ReceiptItem.

Module ParsedReceiptData.
Record t := mk {
  items : list InternalReceiptItem.t;
  total : float;
}.
End ParsedReceiptData.

Module ReceiptData.
Record t := mk {
  items : list ReceiptItem.t;
  total : float;
}.
End ReceiptData.

Module VerificationContext.
Record t := mk {
  rawText : string;
  allItems : list ReceiptItem.t;
}.
End VerificationContext.

Module VerificationResult.
Record t := mk { verifiedName : string }.
End VerificationResult.

(** ** The response parser ([src/processors/parser.ts]) *)

Module Parser.
Import Js.

Definition nl : string := String (ascii_of_nat 10) EmptyString.

(** [typeof v] *)
Definition typeof (v : option json) : string :=
  match v with
  | None => "undefined"
  | Some JNull => "object"
  | Some (JBool _) => "boolean"
  | Some (JNum _) => "number"
  | Some (JStr _) => "string"
  | Some (JArr _) => "object"
  | Some (JObj _) => "object"
  end.

(** The match of [/```(?:json)?\s*([\s\S]*?)```/] in [s], as its capture
    group. The opening fence is the first [```] of [s]; the optional
    [json] and the white space after it are taken greedily and hold no
    backquote, so the lazy group ends at the first [```] that follows them;
    when none follows, no later start can match either. *)
Definition codeBlockMatch (s : string) : option string :=
  match splitAt "```" s with
  | None => None
  | Some (_, afterOpen) =>
      let afterTag :=
        if String.prefix "json" afterOpen
        then String.substring 4 (String.length afterOpen - 4) afterOpen
        else afterOpen in
      match splitAt "```" (trimStart afterTag) with
      | Some (captured, _) => Some captured
      | None => None
      end
  end.

Definition extractJson (text : string) : string :=
  let cleaned := trim text in
  match codeBlockMatch cleaned with
  | Some captured => trim captured
  | None => cleaned
  end.

Definition normalizeRawItem (raw : json) : string + RawReceiptItem.t :=
  if negb (truthy (Some raw)) || negb (String.eqb (typeof (Some raw)) "object")
  then inl "Invalid item: not an object"
  else
    match get "name" raw with
    | Some (JStr name) =>
        if negb (str_truthy (Some name))
        then inl "Invalid item: missing or invalid name field"
        else
          match get "price" raw with
          | Some (JNum price) =>
              if PrimFloat.ltb price 0
              then inl "Invalid item: missing or invalid price field"
              else inr {|
                RawReceiptItem.name := name;
                RawReceiptItem.price := price;
                RawReceiptItem.quantity :=
                  match get "quantity" raw with
                  | Some (JNum q) => q
                  | _ => 1%float
                  end;
                RawReceiptItem.needsVerification :=
                  truthy (get "needsVerification" raw);
                RawReceiptItem.hasTax := truthy (get "hasTax" raw);
                RawReceiptItem.taxAmount := asNumber (get "taxAmount" raw);
                RawReceiptItem.deposit := asNumber (get "deposit" raw);
                RawReceiptItem.discount := asNumber (get "discount" raw);
                RawReceiptItem.isAttachment :=
                  match get "isAttachment" raw with
                  | Some (JBool true) => Some true
                  | _ => None
                  end;
                RawReceiptItem.attachmentType := get "attachmentType" raw;
                RawReceiptItem.attachedTo := asNumber (get "attachedTo" raw);
              |}
          | _ => inl "Invalid item: missing or invalid price field"
          end
    | _ => inl "Invalid item: missing or invalid name field"
    end.

(** The scan of [mergeAttachments]: the [result] array built so far and
    [currentItem]. *)
Definition mergeState : Type :=
  list RawReceiptItem.t * option RawReceiptItem.t.

Definition isAttachmentRecord (item : RawReceiptItem.t) : bool :=
  match RawReceiptItem.isAttachment item with
  | Some b => b
  | None => false
  end.

Definition isType (ty : string) (item : RawReceiptItem.t) : bool :=
  match RawReceiptItem.attachmentType item with
  | Some (JStr s) => String.eqb s ty
  | _ => false
  end.

(** One iteration of the [for] loop. *)
Definition mergeStep (st : mergeState) (item : RawReceiptItem.t) : mergeState :=
  let '(result, currentItem) := st in
  if negb (isAttachmentRecord item) then
    (match currentItem with
     | Some c => (result ++ [c])%list
     | None => result
     end, Some item)
  else
    match currentItem with
    | Some c =>
        if isType "deposit" item then
          (result,
           Some (RawReceiptItem.set_deposit
                   (Some (orZero (RawReceiptItem.deposit c)
                          + RawReceiptItem.price item
                            * RawReceiptItem.quantity item)%float) c))
        else if isType "discount" item then
          (result,
           Some (RawReceiptItem.set_discount
                   (Some (orZero (RawReceiptItem.discount c)
                          - RawReceiptItem.price item)%float) c))
        else (result, Some c)
    | None => (result, None)
    end.

Definition scan (st : mergeState) (items : list RawReceiptItem.t) : mergeState :=
  fold_left mergeStep items st.

(** [const { isAttachment, attachmentType, attachedTo, ...cleanItem } = item] *)
Definition cleanItem (item : RawReceiptItem.t) : RawReceiptItem.t :=
  RawReceiptItem.mk
    (RawReceiptItem.name item) (RawReceiptItem.price item)
    (RawReceiptItem.quantity item) (RawReceiptItem.needsVerification item)
    (RawReceiptItem.hasTax item) (RawReceiptItem.taxAmount item)
    (RawReceiptItem.deposit item) (RawReceiptItem.discount item)
    None None None.

(** What follows the loop: push the open item, then strip the markers. *)
Definition finish (st : mergeState) : list RawReceiptItem.t :=
  let '(result, currentItem) := st in
  let result :=
    match currentItem with
    | Some c => (result ++ [c])%list
    | None => result
    end in
  map cleanItem result.

Definition mergeAttachments (items : list RawReceiptItem.t) : list RawReceiptItem.t :=
  finish (scan ([], None) items).

(** The cleaned objects are what [parseResponse] returns under the type
    [InternalReceiptItem[]]: the same eight properties, read at that type. *)
Definition asInternal (item : RawReceiptItem.t) : InternalReceiptItem.t :=
  {| InternalReceiptItem.name := RawReceiptItem.name item;
     InternalReceiptItem.price := RawReceiptItem.price item;
     InternalReceiptItem.quantity := RawReceiptItem.quantity item;
     InternalReceiptItem.hasTax := RawReceiptItem.hasTax item;
     InternalReceiptItem.taxAmount := RawReceiptItem.taxAmount item;
     InternalReceiptItem.deposit := RawReceiptItem.deposit item;
     InternalReceiptItem.discount := RawReceiptItem.discount item;
     InternalReceiptItem.needsVerification :=
       RawReceiptItem.needsVerification item |}.

(** [`${index}`] *)
Definition showIndex (index : nat) : string :=
  NilZero.string_of_uint (Nat.to_uint index).

Section WithRuntime.

(** [JSON.parse]: the parsed value, or the message of the [SyntaxError]
    it throws. *)
Variable JSON_parse : string -> string + json.

(** [parsed.items.map((raw, index) => ...)]: the items in order, or the
    error thrown at the first item that [normalizeRawItem] rejects. *)
Fixpoint normalizeItems (index : nat) (raws : list json)
  : string + list RawReceiptItem.t :=
  match raws with
  | [] => inr []
  | raw :: rest =>
      match normalizeRawItem raw with
      | inl message =>
          inl ("Invalid item at index " ++ showIndex index ++ ": " ++ message)
      | inr item =>
          match normalizeItems (S index) rest with
          | inl message => inl message
          | inr items => inr (item :: items)
          end
      end
  end.

(** The body of the [try] block of [parseResponse]. *)
Definition parseBody (responseText : string) : string + ParsedReceiptData.t :=
  let jsonText := extractJson responseText in
  match JSON_parse jsonText with
  | inl message => inl message
  | inr parsed =>
      if negb (truthy (Some parsed))
         || negb (String.eqb (typeof (Some parsed)) "object")
      then inl "Response is not an object"
      else
        match get "items" parsed with
        | Some (JArr rawItems) =>
            match get "total" parsed with
            | Some (JNum total) =>
                if PrimFloat.ltb total 0
                then inl "Response.total is missing or invalid"
                else
                  match normalizeItems 0 rawItems with
                  | inl message => inl message
                  | inr items =>
                      let mergedItems := mergeAttachments items in
                      inr {| ParsedReceiptData.items := map asInternal mergedItems;
                             ParsedReceiptData.total := total |}
                  end
            | _ => inl "Response.total is missing or invalid"
            end
        | _ => inl "Response.items is not an array"
        end
  end.

(** The [catch] block rethrows every error with the response attached.
    Everything the [try] block throws is an [Error] ([JSON.parse]'s
    [SyntaxError] and the [Error]s above), so the branch for other thrown
    values is never taken. *)
Definition parseResponse (responseText : string) : string + ParsedReceiptData.t :=
  match parseBody responseText with
  | inr data => inr data
  | inl message =>
      inl ("Failed to parse LLM response: " ++ message
           ++ nl ++ nl ++ "Response:" ++ nl ++ responseText)
  end.

End WithRuntime.

End Parser.

(** ** The extraction entry point ([src/extract.ts]) *)

Module Extract.
Import Js Parser.

(** What one call of the caller's callback does: it throws (or its promise
    rejects), or it returns a result or [null]. *)
Inductive CallbackOutcome :=
| Threw (message : string)
| Returned (result : option VerificationResult.t).

(** One invocation of the callback, as the orchestrator makes it: the
    position of the item it is made for, the two arguments, and what came
    back. *)
Record Call := mkCall {
  callIndex : nat;
  callName : string;
  callContext : VerificationContext.t;
  callOutcome : CallbackOutcome;
}.

(** [({ needsVerification, ...item }) => ({ ...item })] *)
Definition toPublic (item : InternalReceiptItem.t) : ReceiptItem.t :=
  {| ReceiptItem.name := InternalReceiptItem.name item;
     ReceiptItem.price := InternalReceiptItem.price item;
     ReceiptItem.quantity := InternalReceiptItem.quantity item;
     ReceiptItem.hasTax := InternalReceiptItem.hasTax item;
     ReceiptItem.taxAmount := InternalReceiptItem.taxAmount item;
     ReceiptItem.deposit := InternalReceiptItem.deposit item;
     ReceiptItem.discount := InternalReceiptItem.discount item |}.

(** [item.name = verifiedName; item.needsVerification = false] *)
Definition resolve (verifiedName : string) (item : InternalReceiptItem.t)
  : InternalReceiptItem.t :=
  InternalReceiptItem.set_needsVerification false
    (InternalReceiptItem.set_name verifiedName item).

(** The body of the loop of step 3a for one item. *)
Definition applyVerificationMap (verificationMap : gmap string string)
    (item : InternalReceiptItem.t) : InternalReceiptItem.t :=
  if InternalReceiptItem.needsVerification item then
    match verificationMap !! InternalReceiptItem.name item with
    | Some verifiedName =>
        if str_truthy (Some verifiedName) then resolve verifiedName item else item
    | None => item
    end
  else item.

(** [if (result && result.verifiedName) { ... }] *)
Definition applyOutcome (outcome : CallbackOutcome)
    (item : InternalReceiptItem.t) : InternalReceiptItem.t :=
  match outcome with
  | Returned (Some result) =>
      if str_truthy (Some (VerificationResult.verifiedName result))
      then resolve (VerificationResult.verifiedName result) item
      else item
  | Returned None => item
  | Threw _ => item
  end.

Section WithCollaborators.

(** [Image]: the image input. [World]: whatever the caller's callback
    reads and changes between its invocations. *)
Context {Image World : Type}.

Variable JSON_parse : string -> string + json.
Variable EXTRACTION_PROMPT : string.

(** The oracle client: the response text, or the error it throws. *)
Variable callGemini : Image -> string -> string + string.

(** The batch verification source: a name-to-name map, or the error it
    throws. *)
Variable batchVerifyItems :
  list InternalReceiptItem.t -> string + gmap string string.

Definition VerificationCallback : Type :=
  string -> VerificationContext.t -> World -> CallbackOutcome * World.

Record ExtractOptions := mkOptions {
  verifyCallback : option VerificationCallback;
  autoVerify : option bool;
}.

(** [options?.autoVerify !== false] *)
Definition autoVerifyEnabled (options : option ExtractOptions) : bool :=
  match options with
  | Some o => match autoVerify o with Some false => false | _ => true end
  | None => true
  end.

(** [options?.verifyCallback] *)
Definition callbackOf (options : option ExtractOptions)
  : option VerificationCallback :=
  match options with
  | Some o => verifyCallback o
  | None => None
  end.

(** Step 3a. *)
Definition autoVerifyPass (options : option ExtractOptions)
    (parsedItems : list InternalReceiptItem.t) : list InternalReceiptItem.t :=
  let itemsNeedingVerification :=
    List.filter InternalReceiptItem.needsVerification parsedItems in
  if autoVerifyEnabled options && (0 <? length itemsNeedingVerification)%nat then
    match batchVerifyItems itemsNeedingVerification with
    | inr verificationMap => map (applyVerificationMap verificationMap) parsedItems
    | inl _ => parsedItems
    end
  else parsedItems.

(** Step 3b, the [for ... of] loop over [parsedItems], which is
    [visited ++ pending] with the items of [visited] already updated in
    place. The callback's invocations are appended to [log]. *)
Fixpoint callbackLoop (callback : VerificationCallback) (responseText : string)
    (visited pending : list InternalReceiptItem.t) (w : World) (log : list Call)
  : list InternalReceiptItem.t * World * list Call :=
  match pending with
  | [] => (visited, w, log)
  | item :: rest =>
      if InternalReceiptItem.needsVerification item then
        let publicItems := map toPublic (visited ++ item :: rest)%list in
        let verificationContext :=
          {| VerificationContext.rawText := responseText;
             VerificationContext.allItems := publicItems |} in
        let '(outcome, w') :=
          callback (InternalReceiptItem.name item) verificationContext w in
        callbackLoop callback responseText
          (visited ++ [applyOutcome outcome item])%list rest w'
          (log ++ [mkCall (length visited) (InternalReceiptItem.name item)
                          verificationContext outcome])%list
      else
        callbackLoop callback responseText (visited ++ [item])%list rest w log
  end.

Definition callbackPass (options : option ExtractOptions) (responseText : string)
    (parsedItems : list InternalReceiptItem.t) (w : World)
  : list InternalReceiptItem.t * World * list Call :=
  match callbackOf options with
  | Some callback => callbackLoop callback responseText [] parsedItems w []
  | None => (parsedItems, w, [])
  end.

(** Steps 3a and 3b on the parsed items. *)
Definition orchestrate (options : option ExtractOptions) (responseText : string)
    (parsedItems : list InternalReceiptItem.t) (w : World)
  : list InternalReceiptItem.t * World * list Call :=
  callbackPass options responseText (autoVerifyPass options parsedItems) w.

(** The whole call: the returned data or the error thrown, the world
    after it, and the callback's invocations. *)
Definition extractReceiptItems (image : Image) (options : option ExtractOptions)
    (w : World) : (string + ReceiptData.t) * World * list Call :=
  match callGemini image EXTRACTION_PROMPT with
  | inl message => (inl message, w, [])
  | inr responseText =>
      match parseResponse JSON_parse responseText with
      | inl message => (inl message, w, [])
      | inr parsed =>
          let '(parsedItems, w', log) :=
            orchestrate options responseText (ParsedReceiptData.items parsed) w in
          let finalItems := map toPublic parsedItems in
          (inr {| ReceiptData.items := finalItems;
                  ReceiptData.total := ParsedReceiptData.total parsed |}, w', log)
      end
  end.

End WithCollaborators.

End Extract.

(** ** Step 4 on the object store

    The records above are values. Whether the objects a caller receives
    share anything with the ones the library works on is a question about
    references, so the last step of [extractReceiptItems],
    [parsedItems.map(({ needsVerification, ...item }) => ({ ...item }))],
    is also modelled on a store of objects: an array holds references, an
    item object holds only primitive values. *)

Module Store.
Import Extract.

Definition loc : Type := nat.

Inductive object :=
| InternalObj (item : InternalReceiptItem.t)
| PublicObj (item : ReceiptItem.t)
| ArrayObj (elems : list loc).

Abbreviation heap := (gmap loc object).

(** A new object gets a reference that is not in use. *)
Definition alloc (o : object) (h : heap) : loc * heap :=
  let l := fresh (dom h) in (l, <[l := o]> h).

(** One call of the arrow function: the rest pattern builds an object
    without [needsVerification], the spread copies it into the object that
    is returned. *)
Definition projectOne (h : heap) (l : loc) : option (loc * heap) :=
  match h !! l with
  | Some (InternalObj internal) =>
      let '(rest, h1) := alloc (PublicObj (toPublic internal)) h in
      match h1 !! rest with
      | Some (PublicObj item) => Some (alloc (PublicObj item) h1)
      | _ => None
      end
  | _ => None
  end.

Fixpoint projectElems (h : heap) (elems : list loc) : option (list loc * heap) :=
  match elems with
  | [] => Some ([], h)
  | l :: elems' =>
      match projectOne h l with
      | Some (l', h1) =>
          match projectElems h1 elems' with
          | Some (out, h2) => Some (l' :: out, h2)
          | None => None
          end
      | None => None
      end
  end.

(** [parsedItems.map(...)]: a new array of the projected elements. *)
Definition projectArray (h : heap) (parsedItems : loc) : option (loc * heap) :=
  match h !! parsedItems with
  | Some (ArrayObj elems) =>
      match projectElems h elems with
      | Some (out, h1) => Some (alloc (ArrayObj out) h1)
      | None => None
      end
  | _ => None
  end.

(** [parsedItems] is an array of item objects in [h]. *)
Definition internalArray (h : heap) (parsedItems : loc)
    (items : list InternalReceiptItem.t) : Prop :=
  exists elems,
    h !! parsedItems = Some (ArrayObj elems) /\
    Forall2 (fun l item => h !! l = Some (InternalObj item)) elems items.

(** The references a caller can reach from a returned array. *)
Definition reachable (h : heap) (arr : loc) : list loc :=
  match h !! arr with
  | Some (ArrayObj elems) => arr :: elems
  | _ => [arr]
  end.

(** Assignments [ws] made one after the other, the last of the list first;
    an assignment replaces the object a reference denotes. *)
Definition mutate (ws : list (loc * object)) (h : heap) : heap :=
  foldr (fun w acc => <[fst w := snd w]> acc) h ws.

End Store.

(** ** The claims' own vocabulary *)

Module Spec.
Import Js Parser Extract.

(** The number of items a scan state will emit. *)
Definition pendingCount (st : mergeState) : nat :=
  length (fst st) + match snd st with Some _ => 1 | None => 0 end.

Definition substantive (item : RawReceiptItem.t) : bool :=
  negb (isAttachmentRecord item).

(** The items a scan state will emit, before cleaning. *)
Definition pendingItems (st : mergeState) : list RawReceiptItem.t :=
  (fst st ++ match snd st with Some c => [c] | None => [] end)%list.

(** [y] has the fields of [x] that attachment merging never writes. *)
Definition sameBase (x y : RawReceiptItem.t) : Prop :=
  RawReceiptItem.name y = RawReceiptItem.name x
  /\ RawReceiptItem.price y = RawReceiptItem.price x
  /\ RawReceiptItem.quantity y = RawReceiptItem.quantity x
  /\ RawReceiptItem.needsVerification y = RawReceiptItem.needsVerification x
  /\ RawReceiptItem.hasTax y = RawReceiptItem.hasTax x
  /\ RawReceiptItem.taxAmount y = RawReceiptItem.taxAmount x.

(** A positive integer, as the data model words it. *)
Definition isPositiveInteger (x : float) : bool :=
  PrimFloat.ltb 0 x && isInteger x.

Definition isNonNegative (x : float) : bool := PrimFloat.leb 0 x.

(** "name not a non-empty string, or price not a non-negative number" is
    the negation of this. *)
Definition itemValid (raw : json) : bool :=
  match get "name" raw with
  | Some (JStr s) => negb (String.eqb s "")
  | _ => false
  end
  &&
  match get "price" raw with
  | Some (JNum x) => negb (PrimFloat.ltb x 0)
  | _ => false
  end.

(** The failure conditions of the parser's contract, on what [JSON.parse]
    made of the extracted text. *)
Definition mustFail (payload : string + json) : bool :=
  match payload with
  | inl _ => true
  | inr (JObj members) =>
      match assoc "items" members with
      | Some (JArr rawItems) =>
          match assoc "total" members with
          | Some (JNum total) =>
              PrimFloat.ltb total 0 || negb (forallb itemValid rawItems)
          | _ => true
          end
      | _ => true
      end
  | inr _ => true
  end.

(** The positions of the flagged items of [items], counted from [base]. *)
Fixpoint flaggedFrom (base : nat) (items : list InternalReceiptItem.t) : list nat :=
  match items with
  | [] => []
  | item :: rest =>
      if InternalReceiptItem.needsVerification item
      then base :: flaggedFrom (S base) rest
      else flaggedFrom (S base) rest
  end.

(** A callback outcome that carries a non-empty resolved name. *)
Definition resolvedName (outcome : CallbackOutcome) : option string :=
  match outcome with
  | Returned (Some result) =>
      if String.eqb (VerificationResult.verifiedName result) ""
      then None
      else Some (VerificationResult.verifiedName result)
  | _ => None
  end.

(** The public form with the internal flag put back. *)
Definition withFlag (flag : bool) (item : ReceiptItem.t) : InternalReceiptItem.t :=
  {| InternalReceiptItem.name := ReceiptItem.name item;
     InternalReceiptItem.price := ReceiptItem.price item;
     InternalReceiptItem.quantity := ReceiptItem.quantity item;
     InternalReceiptItem.hasTax := ReceiptItem.hasTax item;
     InternalReceiptItem.taxAmount := ReceiptItem.taxAmount item;
     InternalReceiptItem.deposit := ReceiptItem.deposit item;
     InternalReceiptItem.discount := ReceiptItem.discount item;
     InternalReceiptItem.needsVerification := flag |}.

End Spec.

(** ** Sample data *)

Module Examples.
Import Js Parser Extract.

(** The first item of the specification's end-to-end scenario, as
    [normalizeRawItem] returns it. *)
Definition milk : RawReceiptItem.t :=
  RawReceiptItem.mk "ORG MLK" 12.5 1 true false None None None None None None.

(** A deposit line: price [0.5], quantity [2]. *)
Definition depositLine : RawReceiptItem.t :=
  RawReceiptItem.mk "Deposit" 0.5 2 false false None None None
    (Some true) (Some (JStr "deposit")) None.

(** A discount line the oracle reports as [0.5]; its quantity is [3] to
    show that the quantity plays no part. *)
Definition discountLine : RawReceiptItem.t :=
  RawReceiptItem.mk "TPD" 0.5 3 false false None None None
    (Some true) (Some (JStr "discount")) None.

End Examples.

Module ParserExamples.
Import Js Parser.

(** An item as the oracle may report it: half a unit, a negative tax
    amount, and [hasTax] given as text. *)
Definition oddItem : json :=
  JObj [("name", JStr "Bag"); ("price", JNum 1); ("quantity", JNum 0.5);
        ("hasTax", JStr "no"); ("taxAmount", JNum (-1))].

Definition oddItemNormalized : RawReceiptItem.t :=
  RawReceiptItem.mk "Bag" 1 0.5 false true (Some (-1)%float) None None
    None None None.

(** An item with only the two required fields. *)
Definition plainItem : json :=
  JObj [("name", JStr "Bread"); ("price", JNum 8)].

End ParserExamples.

Module Sequencing.
Import Js Parser Extract.

(** The invocations of [log] were made one after the other: each is the
    callback's answer in the world the one before it left, from [w] to
    [w']. *)
Fixpoint threaded {World : Type} (callback : @VerificationCallback World)
    (w : World) (log : list Call) (w' : World) : Prop :=
  match log with
  | [] => w' = w
  | c :: rest =>
      exists w1,
        callback (callName c) (callContext c) w = (callOutcome c, w1)
        /\ threaded callback w1 rest w'
  end.

(** The array an invocation for position [i] sees: the items before [i] as
    the pass leaves them, the others as the pass found them. *)
Definition snapshot (i : nat) (before after : list InternalReceiptItem.t)
  : list ReceiptItem.t :=
  map toPublic (take i after ++ drop i before)%list.

End Sequencing.

Module RunExamples.
Import Js Parser Extract.

Definition quote : string := String (ascii_of_nat 34) EmptyString.

(** A response of the oracle: the specification's end-to-end scenario with
    three more items. *)
Definition sampleText : string :=
  "{" ++ quote ++ "items" ++ quote ++ ":[{" ++ quote ++ "name" ++ quote ++
  ":" ++ quote ++ "ORG MLK" ++ quote ++ "," ++ quote ++ "price" ++ quote ++
  ":12.5," ++ quote ++ "quantity" ++ quote ++ ":1," ++ quote ++
  "needsVerification" ++ quote ++ ":true," ++ quote ++ "hasTax" ++ quote ++
  ":false},{" ++ quote ++ "name" ++ quote ++ ":" ++ quote ++ "Deposit" ++
  quote ++ "," ++ quote ++ "price" ++ quote ++ ":0.5," ++ quote ++
  "quantity" ++ quote ++ ":2," ++ quote ++ "needsVerification" ++ quote ++
  ":false," ++ quote ++ "hasTax" ++ quote ++ ":false," ++ quote ++
  "isAttachment" ++ quote ++ ":true," ++ quote ++ "attachmentType" ++
  quote ++ ":" ++ quote ++ "deposit" ++ quote ++ "},{" ++ quote ++
  "name" ++ quote ++ ":" ++ quote ++ "APL" ++ quote ++ "," ++ quote ++
  "price" ++ quote ++ ":3," ++ quote ++ "needsVerification" ++ quote ++
  ":true},{" ++ quote ++ "name" ++ quote ++ ":" ++ quote ++ "KS BRD" ++
  quote ++ "," ++ quote ++ "price" ++ quote ++ ":8," ++ quote ++
  "needsVerification" ++ quote ++ ":true},{" ++ quote ++ "name" ++ quote ++
  ":" ++ quote ++ "Bread" ++ quote ++ "," ++ quote ++ "price" ++ quote ++
  ":8}]," ++ quote ++ "total" ++ quote ++ ":24.5}".

(** What [JSON.parse] makes of [sampleText]. *)
Definition samplePayload : json :=
  JObj [("items", JArr [
           JObj [("name", JStr "ORG MLK"); ("price", JNum 12.5);
                 ("quantity", JNum 1); ("needsVerification", JBool true);
                 ("hasTax", JBool false)];
           JObj [("name", JStr "Deposit"); ("price", JNum 0.5);
                 ("quantity", JNum 2); ("needsVerification", JBool false);
                 ("hasTax", JBool false); ("isAttachment", JBool true);
                 ("attachmentType", JStr "deposit")];
           JObj [("name", JStr "APL"); ("price", JNum 3);
                 ("needsVerification", JBool true)];
           JObj [("name", JStr "KS BRD"); ("price", JNum 8);
                 ("needsVerification", JBool true)];
           JObj [("name", JStr "Bread"); ("price", JNum 8)]]);
        ("total", JNum 24.5)].

(** The malformed response of the specification and its parsed form. *)
Definition malformedText : string :=
  "{" ++ quote ++ "items" ++ quote ++ ":" ++ quote ++ "not-an-array" ++
  quote ++ "," ++ quote ++ "total" ++ quote ++ ":10}".

Definition malformedPayload : json :=
  JObj [("items", JStr "not-an-array"); ("total", JNum 10)].

(** A stand-in for [JSON.parse] that knows the two texts above and rejects
    every other text. *)
Definition parseKnown (text : string) : string + json :=
  if String.eqb text sampleText then inr samplePayload
  else if String.eqb text malformedText then inr malformedPayload
  else inl "Unexpected token".

(** An oracle that answers [sampleText] inside a markdown fence. *)
Definition fencedOracle (image : unit) (prompt : string) : string + string :=
  inr ("```json" ++ nl ++ sampleText ++ nl ++ "```").

Definition malformedOracle (image : unit) (prompt : string) : string + string :=
  inr malformedText.

(** A batch source that resolves [ORG MLK] only, and one that fails. *)
Definition milkBatch (items : list InternalReceiptItem.t)
  : string + gmap string string :=
  inr {[ "ORG MLK" := "Organic Milk 1L" ]}.

Definition failingBatch (items : list InternalReceiptItem.t)
  : string + gmap string string :=
  inl "503 Service Unavailable".

(** A callback that keeps the names it was asked about, resolves [APL] and
    has no answer for anything else. *)
Definition appleCallback : @VerificationCallback (list string) :=
  fun name context asked =>
    (if String.eqb name "APL"
     then Returned (Some (VerificationResult.mk "Fuji Apple"))
     else Returned None,
     (asked ++ [name])%list).

(** A callback that throws for [APL] and resolves [KS BRD]. *)
Definition flakyCallback : @VerificationCallback (list string) :=
  fun name context asked =>
    (if String.eqb name "APL" then Threw "timeout"
     else if String.eqb name "KS BRD"
          then Returned (Some (VerificationResult.mk "Kirkland Bread"))
          else Returned None,
     (asked ++ [name])%list).

Definition bothPasses (callback : @VerificationCallback (list string))
  : option (@ExtractOptions (list string)) :=
  Some (mkOptions (Some callback) None).

(** The items [parseResponse] returns for [sampleText]. *)
Definition sampleItems : list InternalReceiptItem.t :=
  [InternalReceiptItem.mk "ORG MLK" 12.5 1 false None (Some 1%float) None true;
   InternalReceiptItem.mk "APL" 3 1 false None None None true;
   InternalReceiptItem.mk "KS BRD" 8 1 false None None None true;
   InternalReceiptItem.mk "Bread" 8 1 false None None None false].

Definition prompt : string := "extract the items".

(** The oracle's answer, as the orchestrator receives it. *)
Definition sampleResponse : string :=
  "```json" ++ nl ++ sampleText ++ nl ++ "```".

(** Both passes on [sampleItems]: the batch source resolves the first
    item, the callback the second. *)
Definition sampleOrchestration
  : list InternalReceiptItem.t * list string * list Call :=
  orchestrate milkBatch (bothPasses appleCallback) sampleResponse sampleItems [].

(** The callback pass alone on [sampleItems]. *)
Definition sampleCallbackPass
  : list InternalReceiptItem.t * list string * list Call :=
  callbackPass (bothPasses appleCallback) sampleResponse sampleItems [].

(** A whole call with a batch source that fails and a callback that throws
    for one item. *)
Definition degradedRun
  : (string + ReceiptData.t) * list string * list Call :=
  extractReceiptItems parseKnown prompt fencedOracle failingBatch tt
    (bothPasses flakyCallback) [].

(** A whole call with both sources at work, and what it returns. *)
Definition sampleRun
  : (string + ReceiptData.t) * list string * list Call :=
  extractReceiptItems parseKnown prompt fencedOracle milkBatch tt
    (bothPasses appleCallback) [].

Definition sampleData : ReceiptData.t :=
  {| ReceiptData.items :=
       [ReceiptItem.mk "Organic Milk 1L" 12.5 1 false None (Some 1%float) None;
        ReceiptItem.mk "Fuji Apple" 3 1 false None None None;
        ReceiptItem.mk "KS BRD" 8 1 false None None None;
        ReceiptItem.mk "Bread" 8 1 false None None None];
     ReceiptData.total := 24.5 |}.

End RunExamples.

Module StoreExamples.
Import Extract Store RunExamples.

Definition apple : InternalReceiptItem.t :=
  InternalReceiptItem.mk "APL" 3 1 false None None None true.

Definition bread : InternalReceiptItem.t :=
  InternalReceiptItem.mk "Bread" 8 1 false None None None false.

(** An array at reference 0 that holds two item objects. *)
Definition sampleHeap : heap :=
  <[0 := ArrayObj [1; 2]]>
    (<[1 := InternalObj apple]> (<[2 := InternalObj bread]> ∅)).

End StoreExamples.

(** ** Vocabulary for the further properties *)

Module MoreSpec.
Import Js Parser Extract.

(** What an attachment [a] does to the open item [c]: the inner branch of
    the loop of [mergeAttachments]. *)
Definition absorb (c a : RawReceiptItem.t) : RawReceiptItem.t :=
  if isType "deposit" a then
    RawReceiptItem.set_deposit
      (Some (orZero (RawReceiptItem.deposit c)
             + RawReceiptItem.price a * RawReceiptItem.quantity a)%float) c
  else if isType "discount" a then
    RawReceiptItem.set_discount
      (Some (orZero (RawReceiptItem.discount c) - RawReceiptItem.price a)%float) c
  else c.

(** [item] with another [attachedTo]. *)
Definition withAttachedTo (link : option float) (item : RawReceiptItem.t)
  : RawReceiptItem.t :=
  RawReceiptItem.mk
    (RawReceiptItem.name item) (RawReceiptItem.price item)
    (RawReceiptItem.quantity item) (RawReceiptItem.needsVerification item)
    (RawReceiptItem.hasTax item) (RawReceiptItem.taxAmount item)
    (RawReceiptItem.deposit item) (RawReceiptItem.discount item)
    (RawReceiptItem.isAttachment item) (RawReceiptItem.attachmentType item)
    link.

(** A payload item that carries [isAttachment: true]. *)
Definition rawIsAttachment (raw : json) : bool :=
  match get "isAttachment" raw with
  | Some (JBool true) => true
  | _ => false
  end.

(** The name of a payload item, when it is a string. *)
Definition rawName (raw : json) : string :=
  match get "name" raw with
  | Some (JStr s) => s
  | _ => ""
  end.

(** [s] holds no backquote. *)
Fixpoint noBackquote (s : string) : bool :=
  match s with
  | EmptyString => true
  | String c rest => negb (Ascii.eqb c "`") && noBackquote rest
  end.

(** Two items that differ at most in [name] and [needsVerification]. *)
Definition sameAmounts (a b : InternalReceiptItem.t) : Prop :=
  InternalReceiptItem.price b = InternalReceiptItem.price a
  /\ InternalReceiptItem.quantity b = InternalReceiptItem.quantity a
  /\ InternalReceiptItem.hasTax b = InternalReceiptItem.hasTax a
  /\ InternalReceiptItem.taxAmount b = InternalReceiptItem.taxAmount a
  /\ InternalReceiptItem.deposit b = InternalReceiptItem.deposit a
  /\ InternalReceiptItem.discount b = InternalReceiptItem.discount a.

End MoreSpec.

Module MoreExamples.
Import Js Parser Extract.

(** An attachment of a type the merger does not know. *)
Definition feeLine : RawReceiptItem.t :=
  RawReceiptItem.mk "Bag fee" 0.25 1 false false None None None
    (Some true) (Some (JStr "fee")) None.

Definition loaf : RawReceiptItem.t :=
  RawReceiptItem.mk "Bread" 8 1 false false None None None None None None.

End MoreExamples.

Module MoreRunExamples.
Import Js Parser Extract RunExamples.

(** Items none of which is flagged. *)
Definition settledItems : list InternalReceiptItem.t :=
  [InternalReceiptItem.mk "Whole Milk 1L" 12.5 1 false None None None false;
   InternalReceiptItem.mk "Bread" 8 1 false None None None false].

(** An oracle that fails. *)
Definition failingOracle (image : unit) (prompt : string) : string + string :=
  inl "429 Too Many Requests".

(** The invocation the sample orchestration makes for [APL]: the first
    item already carries the name the batch source gave it. *)
Definition appleCall : Call :=
  mkCall 1 "APL"
    {| VerificationContext.rawText := sampleResponse;
       VerificationContext.allItems :=
         [ReceiptItem.mk "Organic Milk 1L" 12.5 1 false None (Some 1%float) None;
          ReceiptItem.mk "APL" 3 1 false None None None;
          ReceiptItem.mk "KS BRD" 8 1 false None None None;
          ReceiptItem.mk "Bread" 8 1 false None None None] |}
    (Returned (Some (VerificationResult.mk "Fuji Apple"))).

(** The sample items bought twice: every name occurs at two positions. *)
Definition twiceItems : list InternalReceiptItem.t :=
  (sampleItems ++ sampleItems)%list.

(** A payload whose second item has no name, its parsed form, the answer
    that carries it in a fence, and a stand-in for [JSON.parse] that knows
    it as well. *)
Definition namelessText : string :=
  "{" ++ quote ++ "items" ++ quote ++ ":[{" ++ quote ++ "name" ++ quote ++
  ":" ++ quote ++ "Milk" ++ quote ++ "," ++ quote ++ "price" ++ quote ++
  ":2},{" ++ quote ++ "price" ++ quote ++ ":3}]," ++ quote ++ "total" ++
  quote ++ ":5}".

Definition namelessPayload : json :=
  JObj [("items", JArr [JObj [("name", JStr "Milk"); ("price", JNum 2)];
                        JObj [("price", JNum 3)]]);
        ("total", JNum 5)].

Definition namelessResponse : string :=
  "Here you go:" ++ nl ++ "```json" ++ nl ++ namelessText ++ nl ++ "```".

Definition parseKnownMore (text : string) : string + json :=
  if String.eqb text namelessText then inr namelessPayload
  else parseKnown text.

(** Prose around a fenced body, as a model may answer. *)
Definition chattyPrefix : string := "Here is the JSON:" ++ nl.
Definition chattySuffix : string := nl ++ "Let me know if you need more.".

End MoreRunExamples.

Module TextSpec.
Import Js.

(** [s] is empty or starts with a character that is no white space. *)
Definition startsSolid (s : string) : Prop :=
  match s with
  | EmptyString => True
  | String c _ => isWhiteSpace c = false
  end.

End TextSpec.

(** * Properties *)

(** ** Attachment merging: the scan and its output *)

Module MergeFacts.
Import Js Parser Spec.

Lemma scan_app st xs ys : scan st (xs ++ ys)%list = scan (scan st xs) ys.
Proof. unfold scan. apply fold_left_app. Qed.

Lemma scan_cons st x xs : scan st (x :: xs) = scan (mergeStep st x) xs.
Proof. reflexivity. Qed.

Lemma finish_pending st : finish st = map cleanItem (pendingItems st).
Proof. destruct st as [result [c|]]; cbn; [reflexivity|]. by rewrite app_nil_r. Qed.

Lemma mergeStep_attachment_count st a :
  isAttachmentRecord a = true -> pendingCount (mergeStep st a) = pendingCount st.
Proof.
  intros Ha. destruct st as [result [c|]]; unfold mergeStep; rewrite Ha; cbn.
  - destruct (isType "deposit" a); [reflexivity|].
    destruct (isType "discount" a); reflexivity.
  - reflexivity.
Qed.

Lemma mergeStep_substantive_count st x :
  isAttachmentRecord x = false ->
  pendingCount (mergeStep st x) = S (pendingCount st).
Proof.
  intros Hx. destruct st as [result [c|]]; unfold mergeStep, pendingCount;
    rewrite Hx; cbn; rewrite ?length_app; cbn; lia.
Qed.

Lemma mergeStep_substantive_items st x :
  isAttachmentRecord x = false ->
  pendingItems (mergeStep st x) = (pendingItems st ++ [x])%list.
Proof.
  intros Hx. destruct st as [result [c|]]; unfold mergeStep, pendingItems;
    rewrite Hx; cbn; [reflexivity|]. by rewrite app_nil_r.
Qed.

Lemma scan_count items : forall st,
  pendingCount (scan st items)
  = pendingCount st + length (List.filter substantive items).
Proof.
  induction items as [|x items IH]; intros st.
  - cbn. lia.
  - rewrite scan_cons, IH. cbn [List.filter]. unfold substantive at 2.
    destruct (isAttachmentRecord x) eqn:Hx; cbn [negb length].
    + rewrite mergeStep_attachment_count by done. lia.
    + rewrite mergeStep_substantive_count by done. lia.
Qed.

Lemma scan_substantive items : forall st,
  forallb substantive items = true ->
  pendingItems (scan st items) = (pendingItems st ++ items)%list.
Proof.
  induction items as [|x items IH]; intros st Hall.
  - cbn. by rewrite app_nil_r.
  - cbn in Hall. apply andb_prop in Hall as [Hx Hall].
    apply negb_true_iff in Hx.
    rewrite scan_cons, IH by done.
    rewrite mergeStep_substantive_items by done.
    by rewrite <- app_assoc.
Qed.

Lemma finish_length st : length (finish st) = pendingCount st.
Proof.
  rewrite finish_pending, length_map. unfold pendingItems, pendingCount.
  rewrite length_app. destruct (snd st); reflexivity.
Qed.

Lemma mergeAttachments_length items :
  length (mergeAttachments items) = length (List.filter substantive items).
Proof. unfold mergeAttachments. by rewrite finish_length, scan_count. Qed.

Lemma filter_length_le {A} (f : A -> bool) (l : list A) :
  length (List.filter f l) <= length l.
Proof. induction l as [|x l IH]; cbn; [lia|]. destruct (f x); cbn; lia. Qed.

Lemma filter_length_lt {A} (f : A -> bool) (l : list A) :
  existsb (fun x => negb (f x)) l = true -> length (List.filter f l) < length l.
Proof.
  induction l as [|x l IH]; cbn; [discriminate|].
  pose proof (filter_length_le f l).
  destruct (f x); cbn; intros Hex; [apply IH in Hex|]; lia.
Qed.

Lemma cleanItem_substantive x : substantive (cleanItem x) = true.
Proof. reflexivity. Qed.

Lemma cleanItem_idem x : cleanItem (cleanItem x) = cleanItem x.
Proof. reflexivity. Qed.

Lemma mergeAttachments_clean items :
  mergeAttachments items = map cleanItem (pendingItems (scan ([], None) items)).
Proof. unfold mergeAttachments. apply finish_pending. Qed.

Lemma mergeAttachments_substantive items :
  forallb substantive items = true -> mergeAttachments items = map cleanItem items.
Proof.
  intros Hall. rewrite mergeAttachments_clean, scan_substantive by done.
  reflexivity.
Qed.

Lemma leading_attachments atts : forall items,
  forallb isAttachmentRecord atts = true ->
  scan ([], None) (atts ++ items)%list = scan ([], None) items.
Proof.
  induction atts as [|a atts IH]; intros items Hall; [reflexivity|].
  cbn in Hall. apply andb_prop in Hall as [Ha Hall].
  cbn [app]. rewrite scan_cons. unfold mergeStep at 1. rewrite Ha. cbn.
  by apply IH.
Qed.

(** A property of items that the two field updates of the scan keep holds
    of every item the scan will emit, when it holds of every substantive
    input record. *)
Lemma scan_preserves (Q : RawReceiptItem.t -> Prop) :
  (forall d c, Q c -> Q (RawReceiptItem.set_deposit d c)) ->
  (forall d c, Q c -> Q (RawReceiptItem.set_discount d c)) ->
  forall items st,
    Forall Q (pendingItems st) ->
    Forall (fun x => substantive x = true -> Q x) items ->
    Forall Q (pendingItems (scan st items)).
Proof.
  intros Hdep Hdis. induction items as [|x items IH]; intros st Hst Hitems;
    [done|].
  apply Forall_cons in Hitems as [Hx Hitems].
  rewrite scan_cons. apply IH; [|done]. clear IH Hitems.
  destruct (isAttachmentRecord x) eqn:Hatt.
  - destruct st as [result [c|]]; unfold mergeStep; rewrite Hatt; cbn;
      [|done].
    unfold pendingItems in *. cbn in *.
    apply Forall_app in Hst as [Hresult Hc].
    apply Forall_cons in Hc as [Hc _].
    destruct (isType "deposit" x); [|destruct (isType "discount" x)];
      cbn; apply Forall_app; split; try done;
      repeat constructor; auto.
  - rewrite mergeStep_substantive_items by done.
    apply Forall_app. split; [done|]. repeat constructor.
    apply Hx. unfold substantive. by rewrite Hatt.
Qed.

(** Every output item of a merge has the untouched fields of some
    substantive input record. *)
Lemma mergeAttachments_base items out :
  out ∈ mergeAttachments items ->
  exists x, x ∈ items /\ isAttachmentRecord x = false /\ sameBase x out.
Proof.
  rewrite mergeAttachments_clean. intros Hout.
  apply list_elem_of_In, in_map_iff in Hout as (y & <- & Hy).
  apply list_elem_of_In in Hy.
  assert (Hall : Forall (fun y => exists x,
                           x ∈ items /\ isAttachmentRecord x = false
                           /\ sameBase x y)
                        (pendingItems (scan ([], None) items))).
  { apply scan_preserves.
    - intros d c (x & Hx & Hsub & Hbase). by exists x.
    - intros d c (x & Hx & Hsub & Hbase). by exists x.
    - constructor.
    - apply Forall_forall. intros x Hx Hsub. exists x.
      split; [done|]. split; [by apply negb_true_iff|]. by repeat split. }
  rewrite Forall_forall in Hall.
  destruct (Hall y Hy) as (x & Hx & Hsub & Hbase). by exists x.
Qed.

End MergeFacts.

(** ** Attachment merging: the claims *)

Section MergeClaims.
Import Js Parser Spec MergeFacts.

Lemma isType_discount_not_deposit a :
  isType "discount" a = true -> isType "deposit" a = false.
Proof.
  unfold isType. destruct (RawReceiptItem.attachmentType a) as [[| | |s| |]|];
    try discriminate.
  intros Hs. apply String.eqb_eq in Hs. by subst s.
Qed.

Lemma orZero_truthy d : num_falsy d = false -> orZero (Some d) = d.
Proof. intros Hd. unfold orZero. by rewrite Hd. Qed.

(** [d || 0] and [d] are the same number ([==]) unless [d] is [NaN]. *)
Lemma orZero_same_number d :
  PrimFloat.is_nan d = false -> PrimFloat.eqb d (orZero (Some d)) = true.
Proof.
  unfold orZero, num_falsy, PrimFloat.is_nan. intros Hnan. rewrite Hnan.
  rewrite orb_false_r. destruct (PrimFloat.eqb d 0) eqn:Hzero; [done|].
  by apply negb_false_iff.
Qed.

(** C2. When the scan of the items before it has left an item [c] open, a
    deposit attachment [a] makes [c]'s deposit [(c.deposit || 0) + a.price *
    a.quantity] and a discount attachment makes [c]'s discount
    [(c.discount || 0) - a.price], the quantity playing no part; the rest
    of the input is then merged from that state. [x || 0] is [0] for an
    absent [x], [x] itself for every number that is not falsy, and a number
    equal to [x] for every number but [NaN]. *)
Theorem C2_attachment_amounts :
  forall (pre post result : list RawReceiptItem.t) (c a : RawReceiptItem.t),
    scan ([], None) pre = (result, Some c) ->
    isAttachmentRecord a = true ->
    (isType "deposit" a = true ->
     mergeAttachments (pre ++ a :: post)%list
     = finish (scan (result,
                     Some (RawReceiptItem.set_deposit
                             (Some (orZero (RawReceiptItem.deposit c)
                                    + RawReceiptItem.price a
                                      * RawReceiptItem.quantity a)%float) c))
                    post))
    /\ (isType "discount" a = true ->
        mergeAttachments (pre ++ a :: post)%list
        = finish (scan (result,
                        Some (RawReceiptItem.set_discount
                                (Some (orZero (RawReceiptItem.discount c)
                                       - RawReceiptItem.price a)%float) c))
                       post))
    /\ orZero None = 0%float
    /\ (forall d, num_falsy d = false -> orZero (Some d) = d)
    /\ (forall d, PrimFloat.is_nan d = false ->
                  PrimFloat.eqb d (orZero (Some d)) = true).
Proof.
  intros pre post result c a Hpre Ha.
  assert (Hscan : mergeAttachments (pre ++ a :: post)%list
                  = finish (scan (mergeStep (result, Some c) a) post)).
  { unfold mergeAttachments. by rewrite scan_app, Hpre, scan_cons. }
  repeat split.
  - intros Hdep. rewrite Hscan. unfold mergeStep. by rewrite Ha, Hdep.
  - intros Hdis. rewrite Hscan. unfold mergeStep.
    by rewrite Ha, (isType_discount_not_deposit _ Hdis), Hdis.
  - apply orZero_truthy.
  - apply orZero_same_number.
Qed.

(** The examples of C2: a deposit of 0.5 with quantity 2 is stored as 1.0, a
    reported discount of 0.5 as -0.5. *)
Lemma C2_witness :
  map RawReceiptItem.deposit
      (mergeAttachments ([Examples.milk] ++ Examples.depositLine :: [])%list)
  = [Some 1%float]
  /\ map RawReceiptItem.discount
         (mergeAttachments ([Examples.milk] ++ Examples.discountLine :: [])%list)
     = [Some (-0.5)%float].
Proof.
  split.
  - rewrite (proj1 (C2_attachment_amounts [Examples.milk] [] [] Examples.milk
                      Examples.depositLine eq_refl eq_refl) eq_refl).
    reflexivity.
  - rewrite (proj1 (proj2 (C2_attachment_amounts [Examples.milk] [] []
                             Examples.milk Examples.discountLine
                             eq_refl eq_refl)) eq_refl).
    reflexivity.
Defined.

(** C6. An attachment met while no item is open leaves the scan as it was,
    so the attachments that lead the input vanish from the output; no
    output item carries [isAttachment], [attachmentType] or [attachedTo];
    the output has one item per substantive input record, hence at most as
    many items as the input and strictly fewer when the input holds an
    attachment. *)
Theorem C6_merge_output :
  forall items : list RawReceiptItem.t,
    (forall result a,
        isAttachmentRecord a = true ->
        mergeStep (result, None) a = (result, None))
    /\ (forall atts,
           forallb isAttachmentRecord atts = true ->
           mergeAttachments (atts ++ items)%list = mergeAttachments items)
    /\ Forall (fun out =>
                 RawReceiptItem.isAttachment out = None
                 /\ RawReceiptItem.attachmentType out = None
                 /\ RawReceiptItem.attachedTo out = None)
              (mergeAttachments items)
    /\ length (mergeAttachments items)
       = length (List.filter substantive items)
    /\ length (mergeAttachments items) <= length items
    /\ (existsb isAttachmentRecord items = true ->
        length (mergeAttachments items) < length items).
Proof.
  intros items. repeat split.
  - intros result a Ha. unfold mergeStep. by rewrite Ha.
  - intros atts Hatts. unfold mergeAttachments.
    by rewrite leading_attachments.
  - rewrite mergeAttachments_clean. apply Forall_map, Forall_forall.
    intros x _. cbn. done.
  - apply mergeAttachments_length.
  - rewrite mergeAttachments_length. apply filter_length_le.
  - intros Hex. rewrite mergeAttachments_length. apply filter_length_lt.
    rewrite <- Hex. clear Hex. induction items as [|x items IH]; [reflexivity|].
    cbn. rewrite IH. unfold substantive. by rewrite negb_involutive.
Qed.

(** C10. Merging the output of a merge gives that output again. *)
Theorem C10_merge_idempotent :
  forall items : list RawReceiptItem.t,
    mergeAttachments (mergeAttachments items) = mergeAttachments items.
Proof.
  intros items. rewrite (mergeAttachments_clean items).
  set (xs := pendingItems _).
  rewrite mergeAttachments_substantive.
  - rewrite map_map. apply map_ext. intros x. apply cleanItem_idem.
  - apply forallb_forall. intros y Hy. apply in_map_iff in Hy as [x [<- _]].
    apply cleanItem_substantive.
Qed.

End MergeClaims.

(** ** Per-item normalisation *)

Section NormalizeClaims.
Import Js Parser Spec.

Lemma normalizeRawItem_inr raw item :
  normalizeRawItem raw = inr item ->
  exists members name price,
    raw = JObj members
    /\ assoc "name" members = Some (JStr name) /\ name <> ""
    /\ assoc "price" members = Some (JNum price) /\ PrimFloat.ltb price 0 = false
    /\ item = {|
         RawReceiptItem.name := name;
         RawReceiptItem.price := price;
         RawReceiptItem.quantity :=
           match get "quantity" raw with Some (JNum q) => q | _ => 1%float end;
         RawReceiptItem.needsVerification := truthy (get "needsVerification" raw);
         RawReceiptItem.hasTax := truthy (get "hasTax" raw);
         RawReceiptItem.taxAmount := asNumber (get "taxAmount" raw);
         RawReceiptItem.deposit := asNumber (get "deposit" raw);
         RawReceiptItem.discount := asNumber (get "discount" raw);
         RawReceiptItem.isAttachment :=
           match get "isAttachment" raw with
           | Some (JBool true) => Some true
           | _ => None
           end;
         RawReceiptItem.attachmentType := get "attachmentType" raw;
         RawReceiptItem.attachedTo := asNumber (get "attachedTo" raw) |}.
Proof.
  unfold normalizeRawItem.
  destruct raw as [|b|x|s|elems|members]; cbn; try discriminate.
  - destruct b; discriminate.
  - destruct (negb (num_falsy x)); discriminate.
  - destruct (negb (String.eqb s "")); discriminate.
  - destruct (assoc "name" members) as [[| | |name| |]|] eqn:Hname;
      try discriminate.
    destruct (String.eqb name "") eqn:Hne; cbn; [discriminate|].
    destruct (assoc "price" members) as [[| |price| | |]|] eqn:Hprice;
      try discriminate.
    destruct (PrimFloat.ltb price 0) eqn:Hneg; [discriminate|].
    intros [= <-]. exists members, name, price.
    repeat split; try done.
    intros ->. discriminate.
Qed.

Lemma asNumber_is_Some v : is_Some (asNumber v) <-> exists x, v = Some (JNum x).
Proof.
  split.
  - intros [x Hx]. destruct v as [[| |y| | |]|]; try discriminate. by exists y.
  - intros [x ->]. by exists x.
Qed.

End NormalizeClaims.

(** ** The parser's failure contract *)

Section ParseClaims.
Import Js Parser Spec.

Variable JSON_parse : string -> string + json.

Lemma normalizeRawItem_valid raw :
  itemValid raw = true -> exists item, normalizeRawItem raw = inr item.
Proof.
  unfold itemValid, normalizeRawItem.
  destruct raw as [|b|x|s|elems|members]; cbn; try discriminate.
  destruct (assoc "name" members) as [[| | |name| |]|]; try discriminate.
  destruct (String.eqb name ""); cbn; [discriminate|].
  destruct (assoc "price" members) as [[| |price| | |]|]; try discriminate.
  destruct (PrimFloat.ltb price 0); cbn; [discriminate|].
  intros _. eauto.
Qed.

Lemma normalizeRawItem_invalid raw :
  itemValid raw = false -> exists message, normalizeRawItem raw = inl message.
Proof.
  destruct (normalizeRawItem raw) as [message|item] eqn:Hnorm; [eauto|].
  destruct (normalizeRawItem_inr _ _ Hnorm)
    as (members & name & price & -> & Hname & Hne & Hprice & Hneg & _).
  unfold itemValid. cbn. rewrite Hname, Hprice, Hneg.
  apply String.eqb_neq in Hne. rewrite Hne. discriminate.
Qed.

Lemma normalizeItems_valid raws : forall index,
  forallb itemValid raws = true ->
  exists items, normalizeItems index raws = inr items
                /\ length items = length raws.
Proof.
  induction raws as [|raw raws IH]; intros index Hall; cbn.
  - by exists [].
  - cbn in Hall. apply andb_prop in Hall as [Hraw Hall].
    destruct (normalizeRawItem_valid _ Hraw) as [item ->].
    destruct (IH (S index) Hall) as (items & -> & Hlen).
    exists (item :: items). cbn. by rewrite Hlen.
Qed.

(** The error of [normalizeItems] names the first item that is not valid
    and carries the message [normalizeRawItem] gave for it. *)
Lemma normalizeItems_invalid raws : forall index,
  forallb itemValid raws = false ->
  exists k raw message,
    raws !! k = Some raw
    /\ itemValid raw = false
    /\ forallb itemValid (take k raws) = true
    /\ normalizeRawItem raw = inl message
    /\ normalizeItems index raws
       = inl ("Invalid item at index " ++ showIndex (index + k) ++ ": " ++ message).
Proof.
  induction raws as [|raw raws IH]; intros index Hall; cbn in *; [discriminate|].
  destruct (itemValid raw) eqn:Hraw.
  - cbn in Hall. destruct (normalizeRawItem_valid _ Hraw) as [item Hitem].
    destruct (IH (S index) Hall) as (k & raw' & message & Hk & Hbad & Hpre & Hm & Herr).
    exists (S k), raw', message. cbn. rewrite Hraw, Hitem, Herr.
    replace (index + S k) with (S index + k) by lia. done.
  - destruct (normalizeRawItem_invalid _ Hraw) as [message Hm].
    exists 0, raw, message. cbn. rewrite Hm, Nat.add_0_r. done.
Qed.

Lemma parseBody_fails_iff responseText :
  (exists message, parseBody JSON_parse responseText = inl message)
  <-> mustFail (JSON_parse (extractJson responseText)) = true.
Proof.
  unfold parseBody, mustFail.
  destruct (JSON_parse (extractJson responseText)) as [syntaxError|parsed].
  { split; eauto. }
  destruct parsed as [|b|x|s|elems|members]; cbn.
  1-5: split; [done|intros _].
  - eauto.
  - destruct b; cbn; eauto.
  - destruct (negb (num_falsy x)); cbn; eauto.
  - destruct (negb (String.eqb s "")); cbn; eauto.
  - eauto.
  - destruct (assoc "items" members) as [[| | | |rawItems|]|];
      try (split; [done|eauto]).
    destruct (assoc "total" members) as [[| |total| | |]|];
      try (split; [done|eauto]).
    destruct (PrimFloat.ltb total 0); cbn; [split; eauto|].
    destruct (forallb itemValid rawItems) eqn:Hall; cbn.
    + destruct (normalizeItems_valid rawItems 0 Hall) as (items & -> & _).
      split; [intros [message [=]]|discriminate].
    + destruct (normalizeItems_invalid rawItems 0 Hall)
        as (k & raw & message & _ & _ & _ & _ & ->).
      split; eauto.
Qed.

End ParseClaims.

(** ** Per-item normalisation through the parser *)

Section NormalizationClaim.
Import Js Parser Spec MergeFacts.

Variable JSON_parse : string -> string + json.

Lemma normalizeItems_inr raws : forall index items,
  normalizeItems index raws = inr items ->
  Forall2 (fun raw item => normalizeRawItem raw = inr item) raws items.
Proof.
  induction raws as [|raw raws IH]; intros index items; cbn.
  - intros [= <-]. constructor.
  - destruct (normalizeRawItem raw) as [message|item] eqn:Hraw; [discriminate|].
    destruct (normalizeItems (S index) raws) as [message|items'] eqn:Hrest;
      [discriminate|].
    intros [= <-]. constructor; [done|]. by eapply IH.
Qed.

Lemma parseResponse_items responseText parsed :
  parseResponse JSON_parse responseText = inr parsed ->
  exists payload rawItems items,
    JSON_parse (extractJson responseText) = inr payload
    /\ get "items" payload = Some (JArr rawItems)
    /\ Forall2 (fun raw item => normalizeRawItem raw = inr item) rawItems items
    /\ ParsedReceiptData.items parsed = map asInternal (mergeAttachments items).
Proof.
  unfold parseResponse, parseBody.
  destruct (JSON_parse (extractJson responseText)) as [e|payload]; [discriminate|].
  destruct (negb (truthy (Some payload)) || _); [discriminate|].
  destruct (get "items" payload) as [[| | | |rawItems|]|] eqn:Hitems;
    try discriminate.
  destruct (get "total" payload) as [[| |total| | |]|]; try discriminate.
  destruct (PrimFloat.ltb total 0); [discriminate|].
  destruct (normalizeItems 0 rawItems) as [e|items] eqn:Hnorm; [discriminate|].
  intros [= <-]. exists payload, rawItems, items.
  repeat split; try done. by eapply normalizeItems_inr.
Qed.

End NormalizationClaim.

(** ** The orchestrator: the two passes *)

Module ExtractFacts.
Import Js Parser Extract Spec Sequencing.

Lemma lookup_map {A B} (f : A -> B) (l : list A) (i : nat) :
  map f l !! i = f <$> (l !! i).
Proof.
  revert i. induction l as [|x l IH]; intros [|i]; cbn; done.
Qed.

Lemma flaggedFrom_elem items : forall base i,
  i ∈ flaggedFrom base items
  <-> exists k item,
        i = base + k /\ items !! k = Some item
        /\ InternalReceiptItem.needsVerification item = true.
Proof.
  induction items as [|x items IH]; intros base i; cbn.
  - split; [intros H; by apply elem_of_nil in H|].
    intros (k & item & _ & Hk & _). done.
  - destruct (InternalReceiptItem.needsVerification x) eqn:Hx.
    + rewrite elem_of_cons, IH. split.
      * intros [->|(k & item & -> & Hk & Hf)].
        -- exists 0, x. rewrite Nat.add_0_r. done.
        -- exists (S k), item. split; [lia|done].
      * intros ([|k] & item & -> & Hk & Hf).
        -- left. lia.
        -- right. exists k, item. split; [lia|done].
    + rewrite IH. split.
      * intros (k & item & -> & Hk & Hf). exists (S k), item. split; [lia|done].
      * intros ([|k] & item & -> & Hk & Hf).
        -- cbn in Hk. injection Hk as <-. congruence.
        -- exists k, item. split; [lia|done].
Qed.

Lemma threaded_app {World} (callback : @VerificationCallback World) l1 :
  forall w w1 l2 w2,
    threaded callback w l1 w1 -> threaded callback w1 l2 w2 ->
    threaded callback w (l1 ++ l2)%list w2.
Proof.
  induction l1 as [|c l1 IH]; intros w w1 l2 w2 H1 H2; cbn in *.
  - by subst w1.
  - destruct H1 as (w0 & Hc & Hrest). exists w0. split; [done|]. eauto.
Qed.

(** Every entry of a threaded log is an application of the callback: to
    the entry's name and context, in some world, with the entry's
    outcome. *)
Lemma threaded_elem {World} (callback : @VerificationCallback World) log :
  forall w w' c,
    threaded callback w log w' -> c ∈ log ->
    exists w0 w1, callback (callName c) (callContext c) w0 = (callOutcome c, w1).
Proof.
  induction log as [|c0 log IH]; intros w w' c Hthr Hc.
  - by apply elem_of_nil in Hc.
  - destruct Hthr as (w1 & Hc0 & Hrest).
    apply elem_of_cons in Hc as [->|Hc]; [by exists w, w1|].
    by eapply IH.
Qed.

(** What one run of the callback loop does, from any point of the array. *)
Lemma callbackLoop_spec {World} (callback : @VerificationCallback World)
    (responseText : string) (pending : list InternalReceiptItem.t) :
  forall visited w log final w' log',
    callbackLoop callback responseText visited pending w log = (final, w', log') ->
    exists pending' calls,
      final = (visited ++ pending')%list
      /\ log' = (log ++ calls)%list
      /\ length pending' = length pending
      /\ map callIndex calls = flaggedFrom (length visited) pending
      /\ threaded callback w calls w'
      /\ (forall k item,
             pending !! k = Some item ->
             InternalReceiptItem.needsVerification item = false ->
             pending' !! k = Some item)
      /\ Forall (fun c =>
                   exists k item,
                     callIndex c = length visited + k
                     /\ pending !! k = Some item
                     /\ InternalReceiptItem.needsVerification item = true
                     /\ callName c = InternalReceiptItem.name item
                     /\ callContext c
                        = {| VerificationContext.rawText := responseText;
                             VerificationContext.allItems :=
                               map toPublic
                                 (visited ++ take k pending' ++ drop k pending)%list |}
                     /\ pending' !! k = Some (applyOutcome (callOutcome c) item))
                calls.
Proof.
  induction pending as [|item rest IH]; intros visited w log final w' log' Hrun.
  - cbn in Hrun. injection Hrun as <- <- <-.
    exists [], []. rewrite !app_nil_r. repeat split; done.
  - cbn [callbackLoop] in Hrun.
    destruct (InternalReceiptItem.needsVerification item) eqn:Hflag.
    + set (ctx := {| VerificationContext.rawText := responseText;
                     VerificationContext.allItems :=
                       map toPublic (visited ++ item :: rest)%list |}) in *.
      destruct (callback (InternalReceiptItem.name item) ctx w)
        as [outcome w1] eqn:Hcall.
      apply IH in Hrun
        as (rest' & calls & -> & -> & Hlen & Hidx & Hthr & Hkeep & Hcalls).
      exists (applyOutcome outcome item :: rest'),
        (mkCall (length visited) (InternalReceiptItem.name item) ctx outcome :: calls).
      rewrite <- !app_assoc. cbn [app].
      rewrite length_app in Hidx. cbn in Hidx.
      replace (length visited + 1) with (S (length visited)) in Hidx by lia.
      repeat split; try done.
      * cbn. by rewrite Hlen.
      * cbn. by rewrite Hflag, Hidx.
      * cbn. exists w1. done.
      * intros [|k] it Hk Hf; cbn in *; [congruence|eauto].
      * constructor.
        -- exists 0, item. cbn. rewrite Nat.add_0_r. done.
        -- eapply Forall_impl; [exact Hcalls|]. cbn.
           intros c (k & it & Hci & Hk & Hf & Hn & Hctx & Hout).
           exists (S k), it. rewrite length_app in Hci. cbn in *.
           rewrite <- app_assoc in Hctx. cbn in Hctx.
           repeat split; try done. lia.
    + apply IH in Hrun
        as (rest' & calls & -> & -> & Hlen & Hidx & Hthr & Hkeep & Hcalls).
      exists (item :: rest'), calls.
      rewrite <- !app_assoc. cbn [app].
      rewrite length_app in Hidx. cbn in Hidx.
      replace (length visited + 1) with (S (length visited)) in Hidx by lia.
      repeat split; try done.
      * cbn. by rewrite Hlen.
      * cbn. by rewrite Hflag, Hidx.
      * intros [|k] it Hk Hf; cbn in *; [congruence|eauto].
      * eapply Forall_impl; [exact Hcalls|]. cbn.
        intros c (k & it & Hci & Hk & Hf & Hn & Hctx & Hout).
        exists (S k), it. rewrite length_app in Hci. cbn in *.
        rewrite <- app_assoc in Hctx. cbn in Hctx.
        repeat split; try done. lia.
Qed.

Lemma applyOutcome_resolvedName outcome item :
  applyOutcome outcome item
  = match resolvedName outcome with
    | Some verifiedName => resolve verifiedName item
    | None => item
    end.
Proof.
  destruct outcome as [message|[result|]]; cbn; try reflexivity.
  by destruct (String.eqb (VerificationResult.verifiedName result) "").
Qed.

(** The callback loop run over the whole array. *)
Lemma callbackLoop_run {World} (callback : @VerificationCallback World)
    (responseText : string) (items final : list InternalReceiptItem.t)
    (w w' : World) (log : list Call) :
  callbackLoop callback responseText [] items w [] = (final, w', log) ->
  length final = length items
  /\ map callIndex log = flaggedFrom 0 items
  /\ threaded callback w log w'
  /\ (forall k item,
         items !! k = Some item ->
         InternalReceiptItem.needsVerification item = false ->
         final !! k = Some item)
  /\ Forall (fun c =>
               exists item,
                 items !! callIndex c = Some item
                 /\ InternalReceiptItem.needsVerification item = true
                 /\ callName c = InternalReceiptItem.name item
                 /\ callContext c
                    = {| VerificationContext.rawText := responseText;
                         VerificationContext.allItems :=
                           snapshot (callIndex c) items final |}
                 /\ final !! callIndex c
                    = Some (applyOutcome (callOutcome c) item))
            log.
Proof.
  intros Hrun. apply callbackLoop_spec in Hrun
    as (final' & calls & -> & -> & Hlen & Hidx & Hthr & Hkeep & Hcalls).
  cbn in *. repeat split; try done.
  eapply Forall_impl; [exact Hcalls|]. cbn.
  intros c (k & item & -> & Hk & Hf & Hn & Hctx & Hout). by exists item.
Qed.

Lemma applyVerificationMap_unflagged verificationMap item :
  InternalReceiptItem.needsVerification item = false ->
  applyVerificationMap verificationMap item = item.
Proof. intros Hf. unfold applyVerificationMap. by rewrite Hf. Qed.

Lemma applyVerificationMap_flag verificationMap item :
  InternalReceiptItem.needsVerification (applyVerificationMap verificationMap item)
  = true ->
  InternalReceiptItem.needsVerification item = true
  /\ applyVerificationMap verificationMap item = item.
Proof.
  unfold applyVerificationMap.
  destruct (InternalReceiptItem.needsVerification item) eqn:Hf;
    [|intros; congruence].
  destruct (verificationMap !! InternalReceiptItem.name item) as [v|]; [|done].
  destruct (str_truthy (Some v)); [discriminate|done].
Qed.

Lemma applyVerificationMap_resolved verificationMap item verifiedName :
  InternalReceiptItem.needsVerification item = true ->
  verificationMap !! InternalReceiptItem.name item = Some verifiedName ->
  verifiedName <> "" ->
  applyVerificationMap verificationMap item = resolve verifiedName item.
Proof.
  intros Hf Hm Hne. unfold applyVerificationMap. rewrite Hf, Hm. cbn.
  apply String.eqb_neq in Hne. by rewrite Hne.
Qed.

Lemma flagged_filter_nonempty (items : list InternalReceiptItem.t) i item :
  items !! i = Some item ->
  InternalReceiptItem.needsVerification item = true ->
  (0 <? length (List.filter InternalReceiptItem.needsVerification items))%nat = true.
Proof.
  revert i. induction items as [|x items IH]; intros [|i] Hi Hf; cbn in *;
    try discriminate.
  - injection Hi as ->. by rewrite Hf.
  - destruct (InternalReceiptItem.needsVerification x); [done|eauto].
Qed.

End ExtractFacts.

(** ** The orchestrator: the claims *)

Section ExtractClaims.
Import Js Parser Extract Spec Sequencing ExtractFacts.

Context {Image World : Type}.
Variable JSON_parse : string -> string + json.
Variable EXTRACTION_PROMPT : string.
Variable callGemini : Image -> string -> string + string.
Variable batchVerifyItems :
  list InternalReceiptItem.t -> string + gmap string string.

Local Abbreviation extract :=
  (extractReceiptItems JSON_parse EXTRACTION_PROMPT callGemini batchVerifyItems).
Local Abbreviation ExtractOptionsW := (@ExtractOptions World).

Lemma parseResponse_total responseText parsed :
  parseResponse JSON_parse responseText = inr parsed ->
  exists payload,
    JSON_parse (extractJson responseText) = inr payload
    /\ get "total" payload = Some (JNum (ParsedReceiptData.total parsed)).
Proof.
  unfold parseResponse, parseBody.
  destruct (JSON_parse (extractJson responseText)) as [e|payload]; [discriminate|].
  destruct (negb (truthy (Some payload)) || _); [discriminate|].
  destruct (get "items" payload) as [[| | | |rawItems|]|]; try discriminate.
  destruct (get "total" payload) as [[| |total| | |]|] eqn:Htotal;
    try discriminate.
  destruct (PrimFloat.ltb total 0); [discriminate|].
  destruct (normalizeItems 0 rawItems); [discriminate|].
  intros [= <-]. by exists payload.
Qed.

(** A call whose oracle answers and whose response parses returns a result,
    whatever the two verification sources do. *)
Lemma extract_returns image (options : option ExtractOptionsW) w responseText parsed :
  callGemini image EXTRACTION_PROMPT = inr responseText ->
  parseResponse JSON_parse responseText = inr parsed ->
  exists final w' log,
    orchestrate batchVerifyItems options responseText
      (ParsedReceiptData.items parsed) w = (final, w', log)
    /\ extract image options w
       = (inr {| ReceiptData.items := map toPublic final;
                 ReceiptData.total := ParsedReceiptData.total parsed |}, w', log).
Proof.
  intros Horacle Hparse. unfold extractReceiptItems. rewrite Horacle, Hparse.
  destruct (orchestrate batchVerifyItems options responseText
              (ParsedReceiptData.items parsed) w) as [[final w'] log].
  by exists final, w', log.
Qed.

(** Every result of a call comes from a response that parsed. *)
Lemma extract_inr image (options : option ExtractOptionsW) w data w' log :
  extract image options w = (inr data, w', log) ->
  exists responseText parsed final,
    callGemini image EXTRACTION_PROMPT = inr responseText
    /\ parseResponse JSON_parse responseText = inr parsed
    /\ orchestrate batchVerifyItems options responseText
         (ParsedReceiptData.items parsed) w = (final, w', log)
    /\ data = {| ReceiptData.items := map toPublic final;
                 ReceiptData.total := ParsedReceiptData.total parsed |}.
Proof.
  unfold extractReceiptItems.
  destruct (callGemini image EXTRACTION_PROMPT) as [e|responseText] eqn:Horacle;
    [discriminate|].
  destruct (parseResponse JSON_parse responseText) as [e|parsed] eqn:Hparse;
    [discriminate|].
  destruct (orchestrate batchVerifyItems options responseText
              (ParsedReceiptData.items parsed) w) as [[final w1] log1] eqn:Horch.
  intros [= <- <- <-]. by exists responseText, parsed, final.
Qed.

(** C1. Whatever the options, the batch source and the callback are, the
    total of a returned [ReceiptData] is the number under [total] in the
    payload [JSON.parse] made of the oracle's response, which is the total
    [parseResponse] returned. *)
Theorem C1_total_passthrough :
  forall (image : Image) (options : option ExtractOptionsW) (w w' : World)
         (data : ReceiptData.t) (log : list Call),
    extract image options w = (inr data, w', log) ->
    exists responseText payload parsed,
      callGemini image EXTRACTION_PROMPT = inr responseText
      /\ JSON_parse (extractJson responseText) = inr payload
      /\ get "total" payload = Some (JNum (ReceiptData.total data))
      /\ parseResponse JSON_parse responseText = inr parsed
      /\ ReceiptData.total data = ParsedReceiptData.total parsed.
Proof.
  intros image options w w' data log Hrun.
  apply extract_inr in Hrun
    as (responseText & parsed & final & Horacle & Hparse & _ & ->).
  destruct (parseResponse_total _ _ Hparse) as (payload & Hpayload & Htotal).
  by exists responseText, payload, parsed.
Qed.

Lemma autoVerifyPass_cases (options : option ExtractOptionsW) parsedItems :
  autoVerifyPass batchVerifyItems options parsedItems = parsedItems
  \/ exists verificationMap,
       autoVerifyEnabled options = true
       /\ batchVerifyItems
            (List.filter InternalReceiptItem.needsVerification parsedItems)
          = inr verificationMap
       /\ autoVerifyPass batchVerifyItems options parsedItems
          = map (applyVerificationMap verificationMap) parsedItems.
Proof.
  unfold autoVerifyPass.
  destruct (autoVerifyEnabled options); cbn [andb]; [|by left].
  destruct (Nat.ltb 0 _); [|by left].
  destruct (batchVerifyItems _) as [e|verificationMap]; [by left|].
  right. by exists verificationMap.
Qed.

(** The batch pass leaves an item that is not flagged as it was, and an
    item that is still flagged after it was flagged before and is
    unchanged. *)
Lemma autoVerifyPass_lookup (options : option ExtractOptionsW) parsedItems i item :
  parsedItems !! i = Some item ->
  exists item1,
    autoVerifyPass batchVerifyItems options parsedItems !! i = Some item1
    /\ (InternalReceiptItem.needsVerification item = false -> item1 = item)
    /\ (InternalReceiptItem.needsVerification item1 = true -> item1 = item).
Proof.
  intros Hi.
  destruct (autoVerifyPass_cases options parsedItems)
    as [->|(verificationMap & _ & _ & ->)].
  - exists item. done.
  - exists (applyVerificationMap verificationMap item).
    rewrite lookup_map, Hi. repeat split.
    + apply applyVerificationMap_unflagged.
    + intros Hf. by apply applyVerificationMap_flag in Hf as [_ ->].
Qed.

Lemma autoVerifyPass_length (options : option ExtractOptionsW) parsedItems :
  length (autoVerifyPass batchVerifyItems options parsedItems) = length parsedItems.
Proof.
  destruct (autoVerifyPass_cases options parsedItems) as [->|(m & _ & _ & ->)];
    [done|apply length_map].
Qed.

Lemma autoVerifyPass_resolved (options : option ExtractOptionsW) parsedItems
    verificationMap i item verifiedName :
  autoVerifyEnabled options = true ->
  batchVerifyItems (List.filter InternalReceiptItem.needsVerification parsedItems)
  = inr verificationMap ->
  parsedItems !! i = Some item ->
  InternalReceiptItem.needsVerification item = true ->
  verificationMap !! InternalReceiptItem.name item = Some verifiedName ->
  verifiedName <> "" ->
  autoVerifyPass batchVerifyItems options parsedItems !! i
  = Some (resolve verifiedName item).
Proof.
  intros Hon Hbatch Hi Hf Hm Hne. unfold autoVerifyPass.
  rewrite Hon, (flagged_filter_nonempty _ _ _ Hi Hf), Hbatch. cbn [andb].
  rewrite lookup_map, Hi. cbn [fmap option_fmap option_map].
  by rewrite (applyVerificationMap_resolved _ _ _ Hf Hm Hne).
Qed.

(** What the callback pass does to an array, with or without a callback. *)
Lemma callbackPass_spec (options : option ExtractOptionsW) responseText
    items1 w final w' log :
  callbackPass options responseText items1 w = (final, w', log) ->
  length final = length items1
  /\ map callIndex log
     = match callbackOf options with
       | Some _ => flaggedFrom 0 items1
       | None => []
       end
  /\ (forall k item,
         items1 !! k = Some item ->
         InternalReceiptItem.needsVerification item = false ->
         final !! k = Some item)
  /\ Forall (fun c =>
               exists item,
                 items1 !! callIndex c = Some item
                 /\ InternalReceiptItem.needsVerification item = true
                 /\ callName c = InternalReceiptItem.name item
                 /\ callContext c
                    = {| VerificationContext.rawText := responseText;
                         VerificationContext.allItems :=
                           snapshot (callIndex c) items1 final |}
                 /\ final !! callIndex c
                    = Some (applyOutcome (callOutcome c) item))
            log.
Proof.
  unfold callbackPass. destruct (callbackOf options) as [callback|].
  - intros Hrun. apply callbackLoop_run in Hrun
      as (Hlen & Hidx & _ & Hkeep & Hcalls). done.
  - intros [= <- <- <-]. repeat split; try done.
Qed.

Lemma not_flagged_not_called (items1 : list InternalReceiptItem.t) i item :
  items1 !! i = Some item ->
  InternalReceiptItem.needsVerification item = false ->
  i ∉ flaggedFrom 0 items1.
Proof.
  intros Hi Hf Hin. apply flaggedFrom_elem in Hin as (k & item' & -> & Hk & Hf').
  cbn in Hi. congruence.
Qed.

Lemma flaggedFrom_sorted items : forall base,
  StronglySorted lt (flaggedFrom base items).
Proof.
  induction items as [|x items IH]; intros base; cbn; [constructor|].
  destruct (InternalReceiptItem.needsVerification x); [|apply IH].
  constructor; [apply IH|]. apply Forall_forall. intros i Hi.
  apply flaggedFrom_elem in Hi as (k & _ & -> & _). lia.
Qed.

(** The log of a callback pass is the callback's own history: its entries
    are the applications of the callback, each made in the world the one
    before it left, and they lead from the world the pass started in to the
    world it ends in. Without a callback nothing is invoked. *)
Lemma callbackPass_threaded (options : option ExtractOptionsW) responseText
    items1 w final w' log :
  callbackPass options responseText items1 w = (final, w', log) ->
  (forall callback,
      callbackOf options = Some callback -> threaded callback w log w')
  /\ (callbackOf options = None -> final = items1 /\ log = [] /\ w' = w).
Proof.
  unfold callbackPass. destruct (callbackOf options) as [callback|].
  - intros Hrun. apply callbackLoop_run in Hrun as (_ & _ & Hthr & _).
    split; [by intros cb [= <-]|done].
  - intros [= <- <- <-]. split; [done|]. by intros _.
Qed.

(** C4. In every run of the two passes the invocations of the callback are
    the entries of the log and no others: each entry is an application of
    the callback, made in the world the one before it left, from the
    caller's world to the world the run ends in (and with no callback the
    log is empty and the world untouched). An item that is not flagged
    comes out of both passes as it went in and no invocation is for its
    position; every invocation is for an item that was flagged when
    parsed, under the name it then had; and a flagged item for whose name
    the batch pass returned a non-empty resolved name carries that name,
    has its flag cleared, and no invocation is for its position. *)
Theorem C4_batch_then_callback :
  forall (options : option ExtractOptionsW) (responseText : string)
         (parsedItems final : list InternalReceiptItem.t) (w w' : World)
         (log : list Call),
    orchestrate batchVerifyItems options responseText parsedItems w
    = (final, w', log) ->
    (forall i item,
        parsedItems !! i = Some item ->
        InternalReceiptItem.needsVerification item = false ->
        final !! i = Some item /\ i ∉ map callIndex log)
    /\ (forall c,
           c ∈ log ->
           exists item,
             parsedItems !! callIndex c = Some item
             /\ InternalReceiptItem.needsVerification item = true
             /\ callName c = InternalReceiptItem.name item)
    /\ (forall verificationMap i item verifiedName,
           autoVerifyEnabled options = true ->
           batchVerifyItems
             (List.filter InternalReceiptItem.needsVerification parsedItems)
           = inr verificationMap ->
           parsedItems !! i = Some item ->
           InternalReceiptItem.needsVerification item = true ->
           verificationMap !! InternalReceiptItem.name item = Some verifiedName ->
           verifiedName <> "" ->
           final !! i = Some (resolve verifiedName item)
           /\ InternalReceiptItem.name (resolve verifiedName item) = verifiedName
           /\ InternalReceiptItem.needsVerification (resolve verifiedName item)
              = false
           /\ i ∉ map callIndex log)
    /\ (forall callback,
           callbackOf options = Some callback -> threaded callback w log w')
    /\ (callbackOf options = None -> log = [] /\ w' = w).
Proof.
  intros options responseText parsedItems final w w' log Hrun.
  unfold orchestrate in Hrun.
  set (items1 := autoVerifyPass batchVerifyItems options parsedItems) in *.
  destruct (callbackPass_spec _ _ _ _ _ _ _ Hrun) as (Hlen & Hidx & Hkeep & Hcalls).
  destruct (callbackPass_threaded _ _ _ _ _ _ _ Hrun) as (Hthr & Hnone).
  assert (Hskip : forall i item1,
             items1 !! i = Some item1 ->
             InternalReceiptItem.needsVerification item1 = false ->
             final !! i = Some item1 /\ i ∉ map callIndex log).
  { intros i item1 Hi Hf. split; [by apply Hkeep|]. rewrite Hidx.
    destruct (callbackOf options); [|apply not_elem_of_nil].
    by eapply not_flagged_not_called. }
  split; [|split; [|split; [|split]]]; [| | |exact Hthr|by intros [_ ?]%Hnone].
  - intros i item Hi Hf.
    destruct (autoVerifyPass_lookup options parsedItems i item Hi)
      as (item1 & Hi1 & Hsame & _).
    rewrite (Hsame Hf) in Hi1. by apply Hskip.
  - intros c Hc. rewrite Forall_forall in Hcalls.
    destruct (Hcalls c Hc) as (item1 & Hi1 & Hf1 & Hn1 & _).
    assert (Hlt : callIndex c < length parsedItems).
    { rewrite <- (autoVerifyPass_length options). by eapply lookup_lt_Some. }
    destruct (lookup_lt_is_Some_2 _ _ Hlt) as [item Hi].
    destruct (autoVerifyPass_lookup options parsedItems _ item Hi)
      as (item1' & Hi1' & _ & Hkept).
    fold items1 in Hi1'. rewrite Hi1 in Hi1'. injection Hi1' as <-.
    pose proof (Hkept Hf1) as ->. by exists item.
  - intros verificationMap i item verifiedName Hon Hbatch Hi Hf Hm Hne.
    pose proof (autoVerifyPass_resolved options _ _ _ _ _ Hon Hbatch Hi Hf Hm Hne)
      as Hi1.
    destruct (Hskip i (resolve verifiedName item) Hi1 eq_refl) as [Hfinal Hnot].
    done.
Qed.

(** C5. With a callback configured, the callback pass invokes it once for
    each item that is flagged when the pass starts, in the order of the
    array and one invocation after the other. Each invocation receives the
    item's name and a context made of the response text and of the public
    form of the whole array as it stands at that moment: the items before
    the position as the pass leaves them, name resolutions included, the
    others as the pass found them. The item then carries the resolved name
    with its flag cleared when the outcome is a result with a non-empty
    [verifiedName], and is unchanged for every other outcome. *)
Theorem C5_callback_sequencing :
  forall (options : option ExtractOptionsW)
         (callback : @VerificationCallback World) (responseText : string)
         (items1 final : list InternalReceiptItem.t) (w w' : World)
         (log : list Call),
    callbackOf options = Some callback ->
    callbackPass options responseText items1 w = (final, w', log) ->
    map callIndex log = flaggedFrom 0 items1
    /\ StronglySorted lt (map callIndex log)
    /\ threaded callback w log w'
    /\ Forall (fun c =>
                 exists item,
                   items1 !! callIndex c = Some item
                   /\ InternalReceiptItem.needsVerification item = true
                   /\ callName c = InternalReceiptItem.name item
                   /\ callContext c
                      = {| VerificationContext.rawText := responseText;
                           VerificationContext.allItems :=
                             snapshot (callIndex c) items1 final |}
                   /\ final !! callIndex c
                      = Some match resolvedName (callOutcome c) with
                             | Some verifiedName => resolve verifiedName item
                             | None => item
                             end)
              log
    /\ (forall item verifiedName,
           InternalReceiptItem.name (resolve verifiedName item) = verifiedName
           /\ InternalReceiptItem.needsVerification (resolve verifiedName item)
              = false).
Proof.
  intros options callback responseText items1 final w w' log Hcb Hrun.
  unfold callbackPass in Hrun. rewrite Hcb in Hrun.
  apply callbackLoop_run in Hrun as (Hlen & Hidx & Hthr & Hkeep & Hcalls).
  repeat split; try done.
  - rewrite Hidx. apply flaggedFrom_sorted.
  - eapply Forall_impl; [exact Hcalls|]. cbn.
    intros c (item & Hi & Hf & Hn & Hctx & Hout). exists item.
    by rewrite <- applyOutcome_resolvedName.
Qed.

(** C7. A batch source that throws leaves the array as parsed. Whatever
    the two sources do, a call whose response parses returns a result: the
    public forms of the items the passes end with, one per parsed item,
    and the parsed total. With a callback configured, the callback is
    applied once for every item that is flagged after the batch pass, in
    order, one application after the other from the caller's world, also
    after an application that threw; an item whose application threw is
    left as it was, every other one is as the outcome makes it, and the
    items that are not flagged are left alone. Without a callback nothing
    is invoked. A call whose response does not parse throws the parser's
    error. *)
Theorem C7_verification_not_fatal :
  forall (image : Image) (options : option ExtractOptionsW) (w : World),
    (forall parsedItems message,
        batchVerifyItems
          (List.filter InternalReceiptItem.needsVerification parsedItems)
        = inl message ->
        autoVerifyPass batchVerifyItems options parsedItems = parsedItems)
    /\ (forall responseText parsed,
           callGemini image EXTRACTION_PROMPT = inr responseText ->
           parseResponse JSON_parse responseText = inr parsed ->
           exists final w' log,
             extract image options w
             = (inr {| ReceiptData.items := map toPublic final;
                       ReceiptData.total := ParsedReceiptData.total parsed |},
                w', log)
             /\ length final = length (ParsedReceiptData.items parsed)
             /\ (forall k item,
                    autoVerifyPass batchVerifyItems options
                      (ParsedReceiptData.items parsed) !! k = Some item ->
                    InternalReceiptItem.needsVerification item = false ->
                    final !! k = Some item)
             /\ (callbackOf options = None ->
                 final = autoVerifyPass batchVerifyItems options
                           (ParsedReceiptData.items parsed)
                 /\ log = [] /\ w' = w)
             /\ (forall callback,
                    callbackOf options = Some callback ->
                    map callIndex log
                    = flaggedFrom 0
                        (autoVerifyPass batchVerifyItems options
                           (ParsedReceiptData.items parsed))
                    /\ threaded callback w log w'
                    /\ Forall (fun c =>
                                 exists item,
                                   autoVerifyPass batchVerifyItems options
                                     (ParsedReceiptData.items parsed)
                                     !! callIndex c = Some item
                                   /\ callName c = InternalReceiptItem.name item
                                   /\ final !! callIndex c
                                      = Some (applyOutcome (callOutcome c) item)
                                   /\ (forall message,
                                          callOutcome c = Threw message ->
                                          final !! callIndex c = Some item))
                              log))
    /\ (forall responseText message,
           callGemini image EXTRACTION_PROMPT = inr responseText ->
           parseResponse JSON_parse responseText = inl message ->
           extract image options w = (inl message, w, [])).
Proof.
  intros image options w. split; [|split].
  - intros parsedItems message Hbatch. unfold autoVerifyPass. rewrite Hbatch.
    by destruct (_ && _).
  - intros responseText parsed Horacle Hparse.
    destruct (extract_returns image options w _ _ Horacle Hparse)
      as (final & w' & log & Horch & Hrun).
    exists final, w', log. split; [done|].
    unfold orchestrate in Horch.
    destruct (callbackPass_spec _ _ _ _ _ _ _ Horch)
      as (Hlen & Hidx & Hkeep & Hcalls).
    destruct (callbackPass_threaded _ _ _ _ _ _ _ Horch) as (Hthr & Hnone).
    split; [by rewrite Hlen, autoVerifyPass_length|].
    split; [done|]. split; [done|].
    intros callback Hcb. rewrite Hcb in Hidx.
    split; [done|]. split; [by apply Hthr|].
    eapply Forall_impl; [exact Hcalls|]. cbn.
    intros c (item & Hi & _ & Hn & _ & Hout). exists item.
    split; [done|]. split; [done|]. split; [done|].
    intros message Hthrew. by rewrite Hthrew in Hout.
  - intros responseText message Horacle Hparse.
    unfold extractReceiptItems. by rewrite Horacle, Hparse.
Qed.

End ExtractClaims.

(** ** The public projection on the store *)

Module StoreFacts.
Import Extract Store.

Lemma alloc_spec o (h h' : heap) l :
  alloc o h = (l, h') ->
  h !! l = None /\ h' !! l = Some o /\ h ⊆ h'.
Proof.
  unfold alloc. intros [= <- <-].
  assert (Hfresh : h !! fresh (dom h) = None).
  { apply not_elem_of_dom, is_fresh. }
  split; [done|]. split; [apply lookup_insert_eq|by apply insert_subseteq].
Qed.

Lemma projectOne_spec (h h' : heap) l l' internal :
  h !! l = Some (InternalObj internal) ->
  projectOne h l = Some (l', h') ->
  h !! l' = None /\ h' !! l' = Some (PublicObj (toPublic internal)) /\ h ⊆ h'.
Proof.
  intros Hl. unfold projectOne. rewrite Hl.
  destruct (alloc (PublicObj (toPublic internal)) h) as [rest h1] eqn:Hrest.
  apply alloc_spec in Hrest as (Hnew1 & Hrest & Hsub1). rewrite Hrest.
  destruct (alloc (PublicObj (toPublic internal)) h1) as [l2 h2] eqn:Hcopy.
  intros [= <- <-]. apply alloc_spec in Hcopy as (Hnew2 & Hcopy & Hsub2).
  split; [|split; [done|by etrans]].
  destruct (h !! l2) as [o|] eqn:Hold; [|done].
  by rewrite (lookup_weaken _ _ _ _ Hold Hsub1) in Hnew2.
Qed.

Lemma projectOne_total (h : heap) l internal :
  h !! l = Some (InternalObj internal) ->
  exists l' h', projectOne h l = Some (l', h').
Proof.
  intros Hl. unfold projectOne. rewrite Hl.
  destruct (alloc (PublicObj (toPublic internal)) h) as [rest h1] eqn:Hrest.
  apply alloc_spec in Hrest as (_ & -> & _).
  destruct (alloc (PublicObj (toPublic internal)) h1) as [l' h'].
  by exists l', h'.
Qed.

Lemma projectElems_spec elems : forall (h : heap) items,
  Forall2 (fun l item => h !! l = Some (InternalObj item)) elems items ->
  exists out h',
    projectElems h elems = Some (out, h')
    /\ h ⊆ h'
    /\ NoDup out
    /\ Forall2 (fun l item =>
                  h !! l = None /\ h' !! l = Some (PublicObj (toPublic item)))
               out items.
Proof.
  induction elems as [|l elems IH]; intros h items Hinternal.
  - apply Forall2_nil_inv_l in Hinternal as ->.
    exists [], h. repeat split; try done. constructor.
  - apply Forall2_cons_inv_l in Hinternal
      as (item & items' & Hl & Hrest & ->).
    destruct (projectOne_total h l item Hl) as (l' & h1 & Hone).
    destruct (projectOne_spec h h1 l l' item Hl Hone) as (Hnew & Hpub & Hsub).
    destruct (IH h1 items') as (out & h2 & Hrec & Hsub2 & Hnodup & Hout).
    { eapply Forall2_impl; [exact Hrest|]. cbn. intros l0 item0 Hl0.
      by eapply lookup_weaken. }
    exists (l' :: out), h2. cbn. rewrite Hone, Hrec.
    split; [done|]. split; [by etrans|]. split.
    + constructor; [|done]. intros Hin.
      destruct (list_elem_of_lookup_1 _ _ Hin) as [k Hk].
      destruct (Forall2_lookup_l _ _ _ _ _ Hout Hk) as (item0 & _ & Hfresh & _).
      congruence.
    + constructor.
      * split; [done|]. by eapply lookup_weaken.
      * eapply Forall2_impl; [exact Hout|]. cbn.
        intros l0 item0 [Hfresh Hpub0]. split; [|done].
        destruct (h !! l0) as [o|] eqn:Hold; [|done].
        by rewrite (lookup_weaken _ _ _ _ Hold Hsub) in Hfresh.
Qed.

Lemma mutate_frame ws : forall (h : heap) l,
  Forall (fun w => fst w <> l) ws -> mutate ws h !! l = h !! l.
Proof.
  induction ws as [|[l1 o1] ws IH]; intros h l Hws; [done|].
  apply Forall_cons in Hws as [Hne Hws]. cbn in *.
  rewrite lookup_insert_ne by done. by apply IH.
Qed.

End StoreFacts.

(** ** The public projection: the claim *)

Section ProjectionClaims.
Import Js Parser Extract Spec Store StoreFacts.

Context {Image World : Type}.
Variable JSON_parse : string -> string + json.
Variable EXTRACTION_PROMPT : string.
Variable callGemini : Image -> string -> string + string.
Variable batchVerifyItems :
  list InternalReceiptItem.t -> string + gmap string string.

Lemma toPublic_withFlag item :
  withFlag (InternalReceiptItem.needsVerification item) (toPublic item) = item.
Proof. by destruct item. Qed.

Lemma toPublic_forgets_flag item flag :
  toPublic (InternalReceiptItem.set_needsVerification flag item) = toPublic item.
Proof. reflexivity. Qed.

Lemma flag_matters item :
  InternalReceiptItem.set_needsVerification
    (negb (InternalReceiptItem.needsVerification item)) item <> item.
Proof.
  intros Heq. apply (f_equal InternalReceiptItem.needsVerification) in Heq.
  cbn in Heq. by destruct (InternalReceiptItem.needsVerification item).
Qed.

(** C8. The items a call returns are the public forms of the items the
    orchestrator ended with, one for one. The public form of an item has
    the item's fields but [needsVerification], with the same values: the
    flag put back gives the item again, and two items that differ in the
    flag alone have one public form. On the store, projecting an array of
    item objects succeeds and gives a new array of new, pairwise distinct
    objects, each holding the public form of the item at the same position;
    none of these references denotes anything in the store the projection
    started from, that store is unchanged, and no sequence of assignments
    to the returned references changes an object of it. *)
Theorem C8_public_projection :
  forall (h : heap) (parsedItems : loc) (items : list InternalReceiptItem.t),
    internalArray h parsedItems items ->
    (exists finalItems h' out,
        projectArray h parsedItems = Some (finalItems, h')
        /\ h' !! finalItems = Some (ArrayObj out)
        /\ Forall2 (fun l item => h' !! l = Some (PublicObj (toPublic item)))
                   out items
        /\ NoDup (finalItems :: out)
        /\ (forall l, l ∈ reachable h' finalItems -> h !! l = None)
        /\ h ⊆ h'
        /\ (forall ws l o,
               Forall (fun w => fst w ∈ reachable h' finalItems) ws ->
               h !! l = Some o ->
               mutate ws h' !! l = Some o))
    /\ (forall (image : Image) (options : option (@ExtractOptions World))
               (w w' : World) (data : ReceiptData.t) (log : list Call),
           extractReceiptItems JSON_parse EXTRACTION_PROMPT callGemini
             batchVerifyItems image options w = (inr data, w', log) ->
           exists responseText parsed final,
             parseResponse JSON_parse responseText = inr parsed
             /\ orchestrate batchVerifyItems options responseText
                  (ParsedReceiptData.items parsed) w = (final, w', log)
             /\ ReceiptData.items data = map toPublic final)
    /\ (forall item,
           withFlag (InternalReceiptItem.needsVerification item) (toPublic item)
           = item
           /\ toPublic (InternalReceiptItem.set_needsVerification
                          (negb (InternalReceiptItem.needsVerification item)) item)
              = toPublic item
           /\ InternalReceiptItem.set_needsVerification
                (negb (InternalReceiptItem.needsVerification item)) item <> item).
Proof.
  intros h parsedItems items (elems & Harr & Helems).
  split; [|split].
  - destruct (projectElems_spec elems h items Helems)
      as (out & h1 & Hproj & Hsub & Hnodup & Hout).
    destruct (alloc (ArrayObj out) h1) as [finalItems h'] eqn:Halloc.
    exists finalItems, h', out.
    destruct (alloc_spec _ _ _ _ Halloc) as (Hnew & Hfinal & Hsub').
    assert (Hfresh : forall l, l ∈ finalItems :: out -> h !! l = None).
    { intros l [->|Hin]%elem_of_cons.
      - destruct (h !! finalItems) as [o|] eqn:Hold; [|done].
        by rewrite (lookup_weaken _ _ _ _ Hold Hsub) in Hnew.
      - destruct (list_elem_of_lookup_1 _ _ Hin) as [k Hk].
        by destruct (Forall2_lookup_l _ _ _ _ _ Hout Hk) as (item & _ & Hl & _). }
    assert (Hreach : reachable h' finalItems = finalItems :: out).
    { unfold reachable. by rewrite Hfinal. }
    split.
    { unfold projectArray. by rewrite Harr, Hproj, Halloc. }
    split; [done|]. split.
    { eapply Forall2_impl; [exact Hout|]. cbn. intros l item [_ Hl].
      by eapply lookup_weaken. }
    split.
    { constructor; [|done]. intros Hin.
      destruct (list_elem_of_lookup_1 _ _ Hin) as [k Hk].
      destruct (Forall2_lookup_l _ _ _ _ _ Hout Hk) as (item & _ & _ & Hl).
      congruence. }
    split; [by rewrite Hreach|]. split; [by etrans|].
    intros ws l o Hws Hl. rewrite mutate_frame.
    + eapply lookup_weaken; [exact Hl|by etrans].
    + eapply Forall_impl; [exact Hws|]. cbn. intros w Hw Heq.
      rewrite Hreach in Hw. apply Hfresh in Hw. congruence.
  - intros image options w w' data log Hrun.
    apply (extract_inr JSON_parse EXTRACTION_PROMPT callGemini batchVerifyItems)
      in Hrun as (responseText & parsed & final & _ & Hparse & Horch & ->).
    by exists responseText, parsed, final.
  - intros item. split; [apply toPublic_withFlag|].
    split; [apply toPublic_forgets_flag|apply flag_matters].
Qed.

End ProjectionClaims.

(** ** The claims on the sample data *)

Section Witnesses.
Import Js Parser Extract Spec Sequencing Store.
Import Examples ParserExamples RunExamples StoreExamples.

(** The sample call returns [sampleData], whose total is the payload's. *)
Lemma C1_total_passthrough_witness :
  exists responseText payload parsed,
    fencedOracle tt prompt = inr responseText
    /\ parseKnown (extractJson responseText) = inr payload
    /\ get "total" payload = Some (JNum (ReceiptData.total sampleData))
    /\ parseResponse parseKnown responseText = inr parsed
    /\ ReceiptData.total sampleData = ParsedReceiptData.total parsed.
Proof.
  apply (C1_total_passthrough parseKnown prompt fencedOracle milkBatch tt
           (bothPasses appleCallback) [] (snd (fst sampleRun)) sampleData
           (snd sampleRun)).
  vm_compute. reflexivity.
Defined.

(** [ORG MLK] is resolved by the batch source and never reaches the
    callback; [Bread] is not flagged and is left alone; the callback's own
    record of what it was asked holds the two names the batch source left
    unresolved, and nothing else. *)
Lemma C4_batch_then_callback_witness :
  (fst (fst sampleOrchestration) !! 0
   = Some (InternalReceiptItem.mk "Organic Milk 1L" 12.5 1 false None
             (Some 1%float) None false)
   /\ 0 ∉ map callIndex (snd sampleOrchestration))
  /\ (fst (fst sampleOrchestration) !! 3
      = Some (InternalReceiptItem.mk "Bread" 8 1 false None None None false)
      /\ 3 ∉ map callIndex (snd sampleOrchestration))
  /\ threaded appleCallback [] (snd sampleOrchestration) ["APL"; "KS BRD"].
Proof.
  destruct (C4_batch_then_callback milkBatch (bothPasses appleCallback)
              sampleResponse sampleItems (fst (fst sampleOrchestration)) []
              (snd (fst sampleOrchestration)) (snd sampleOrchestration))
    as (Hplain & _ & Hbatch & Hthr & _).
  { vm_compute. reflexivity. }
  split; [|split; [|exact (Hthr appleCallback eq_refl)]].
  - destruct (Hbatch {[ "ORG MLK" := "Organic Milk 1L" ]} 0
                (InternalReceiptItem.mk "ORG MLK" 12.5 1 false None
                   (Some 1%float) None true)
                "Organic Milk 1L")
      as (Hfinal & _ & _ & Hnot); try (vm_compute; reflexivity);
      [discriminate|]. exact (conj Hfinal Hnot).
  - apply (Hplain 3); vm_compute; reflexivity.
Defined.

(** The callback is asked about the three flagged items in order, and the
    context of the third invocation lists the second item under the name
    the callback gave it. *)
Lemma C5_callback_sequencing_witness :
  map callIndex (snd sampleCallbackPass) = [0; 1; 2]
  /\ map (fun c => map ReceiptItem.name
                     (VerificationContext.allItems (callContext c)))
         (snd sampleCallbackPass)
     = [["ORG MLK"; "APL"; "KS BRD"; "Bread"];
        ["ORG MLK"; "APL"; "KS BRD"; "Bread"];
        ["ORG MLK"; "Fuji Apple"; "KS BRD"; "Bread"]].
Proof.
  destruct (C5_callback_sequencing (bothPasses appleCallback) appleCallback
              sampleResponse sampleItems (fst (fst sampleCallbackPass)) []
              (snd (fst sampleCallbackPass)) (snd sampleCallbackPass)
              eq_refl)
    as (Hidx & _).
  { vm_compute. reflexivity. }
  split; [rewrite Hidx|]; vm_compute; reflexivity.
Defined.

(** A leading attachment vanishes from the output. *)
Lemma C6_merge_output_witness :
  mergeAttachments ([depositLine] ++ [milk])%list = mergeAttachments [milk].
Proof.
  apply (proj1 (proj2 (C6_merge_output [milk])) [depositLine]). reflexivity.
Defined.

(** With a batch source that fails and a callback that throws for [APL],
    the call still returns the four items and the total: the callback was
    asked about all three flagged items, in order, the one after [APL]
    included; [APL] keeps its name and [KS BRD] has the name the callback
    gave. *)
Lemma C7_verification_not_fatal_witness :
  exists data w' log,
    degradedRun = (inr data, w', log)
    /\ map ReceiptItem.name (ReceiptData.items data)
       = ["ORG MLK"; "APL"; "Kirkland Bread"; "Bread"]
    /\ ReceiptData.total data = 24.5%float
    /\ map callIndex log = [0; 1; 2]
    /\ threaded flakyCallback [] log ["ORG MLK"; "APL"; "KS BRD"].
Proof.
  destruct (C7_verification_not_fatal parseKnown prompt fencedOracle
              failingBatch tt (bothPasses flakyCallback) [])
    as (_ & Hreturns & _).
  destruct (Hreturns sampleResponse
              {| ParsedReceiptData.items := sampleItems;
                 ParsedReceiptData.total := 24.5 |})
    as (final & w' & log & Hrun & _ & _ & _ & Hcallback);
    [vm_compute; reflexivity..|].
  destruct (Hcallback flakyCallback eq_refl) as (Hidx & Hthr & _).
  eexists _, w', log. split; [exact Hrun|].
  assert (Hnames : ["ORG MLK"; "APL"; "Kirkland Bread"; "Bread"]
                   = map ReceiptItem.name (map toPublic final)).
  { exact (f_equal (fun run => match fst (fst run) with
                               | inr data =>
                                   map ReceiptItem.name (ReceiptData.items data)
                               | inl _ => []
                               end) Hrun). }
  assert (Hworld : ["ORG MLK"; "APL"; "KS BRD"] = w').
  { exact (f_equal (fun run => snd (fst run)) Hrun). }
  split; [|split; [reflexivity|split; [exact Hidx|]]].
  - cbn [ReceiptData.items]. by rewrite <- Hnames.
  - rewrite Hworld. exact Hthr.
Defined.

(** Projecting the sample array succeeds. *)
Lemma C8_public_projection_witness :
  exists finalItems h' out,
    projectArray sampleHeap 0 = Some (finalItems, h')
    /\ h' !! finalItems = Some (ArrayObj out)
    /\ Forall2 (fun l item => h' !! l = Some (PublicObj (toPublic item)))
               out [apple; bread].
Proof.
  destruct (C8_public_projection (Image := unit) (World := list string)
              parseKnown prompt fencedOracle milkBatch
              sampleHeap 0 [apple; bread])
    as ((finalItems & h' & out & Hproj & Harr & Hout & _) & _).
  - exists [1; 2]. split; [vm_compute; reflexivity|].
    repeat constructor; vm_compute; reflexivity.
  - by exists finalItems, h', out.
Defined.

End Witnesses.

(** ** Scenarios of the specification, evaluated *)

Section Scenarios.
Import Js Parser Extract.
Import Examples RunExamples.

(** A fenced response is unwrapped before it is handed to [JSON.parse]. *)
Example extractJson_fenced : extractJson sampleResponse = sampleText.
Proof. vm_compute. reflexivity. Qed.

(** A response without a fence is only trimmed. *)
Example extractJson_plain :
  extractJson (" " ++ nl ++ malformedText ++ nl) = malformedText.
Proof. vm_compute. reflexivity. Qed.

(** The sample response parses to the four merged items and the total. *)
Example parseResponse_sample :
  parseResponse parseKnown sampleResponse
  = inr {| ParsedReceiptData.items := sampleItems;
           ParsedReceiptData.total := 24.5 |}.
Proof. vm_compute. reflexivity. Qed.

(** With automatic verification switched off and no callback, the names
    are the oracle's. *)
Example extract_without_verification :
  extractReceiptItems parseKnown prompt fencedOracle milkBatch tt
    (Some (mkOptions None (Some false))) ([] : list string)
  = (inr {| ReceiptData.items := map toPublic sampleItems;
            ReceiptData.total := 24.5 |}, [], []).
Proof. vm_compute. reflexivity. Qed.

(** With both passes, the batch source names the milk and the callback the
    apple; the callback was asked about [APL] and [KS BRD] only. *)
Example extract_with_both_passes :
  fst sampleRun = (inr sampleData, ["APL"; "KS BRD"])
  /\ map callName (snd sampleRun) = ["APL"; "KS BRD"].
Proof. split; vm_compute; reflexivity. Qed.

(** With a failing batch source and a callback that throws for [APL], the
    milk and the apple keep their names and [KS BRD] is still resolved. *)
Example extract_degraded :
  match fst (fst degradedRun) with
  | inr data => map ReceiptItem.name (ReceiptData.items data)
  | inl _ => []
  end = ["ORG MLK"; "APL"; "Kirkland Bread"; "Bread"].
Proof. vm_compute. reflexivity. Qed.

(** A malformed response is an error of the call. *)
Example extract_malformed :
  extractReceiptItems parseKnown prompt malformedOracle milkBatch tt
    (bothPasses appleCallback) []
  = (inl ("Failed to parse LLM response: Response.items is not an array"
          ++ nl ++ nl ++ "Response:" ++ nl ++ malformedText), [], []).
Proof. vm_compute. reflexivity. Qed.

End Scenarios.

(** * Further properties of the code *)

(** ** Attachment merging as a whole *)

Module MergeMore.
Import Js Parser Spec MoreSpec MergeFacts.

Lemma mergeStep_absorb result c a :
  isAttachmentRecord a = true ->
  mergeStep (result, Some c) a = (result, Some (absorb c a)).
Proof.
  intros Ha. unfold mergeStep, absorb. rewrite Ha. cbn.
  destruct (isType "deposit" a); [done|]. by destruct (isType "discount" a).
Qed.

Lemma scan_attachments atts : forall result c,
  forallb isAttachmentRecord atts = true ->
  scan (result, Some c) atts = (result, Some (fold_left absorb atts c)).
Proof.
  induction atts as [|a atts IH]; intros result c Hall; [done|].
  cbn in Hall. apply andb_prop in Hall as [Ha Hall].
  rewrite scan_cons, mergeStep_absorb by done. cbn. by apply IH.
Qed.

(** The scan only ever appends to [result]. *)
Lemma scan_result_prefix items : forall pre result cur,
  scan ((pre ++ result)%list, cur) items
  = ((pre ++ fst (scan (result, cur) items))%list,
     snd (scan (result, cur) items)).
Proof.
  induction items as [|x items IH]; intros pre result cur; [done|].
  rewrite !scan_cons.
  assert (Hstep : mergeStep ((pre ++ result)%list, cur) x
                  = ((pre ++ fst (mergeStep (result, cur) x))%list,
                     snd (mergeStep (result, cur) x))).
  { unfold mergeStep. destruct (negb (isAttachmentRecord x)).
    - destruct cur as [c|]; cbn; [by rewrite app_assoc|done].
    - destruct cur as [c|]; [|done].
      destruct (isType "deposit" x); [done|].
      by destruct (isType "discount" x). }
  rewrite Hstep. destruct (mergeStep (result, cur) x) as [result' cur'].
  apply IH.
Qed.

Lemma finish_open_item c rest :
  match rest with
  | [] => True
  | y :: _ => isAttachmentRecord y = false
  end ->
  finish (scan ([], Some c) rest) = cleanItem c :: finish (scan ([], None) rest).
Proof.
  destruct rest as [|y rest]; [done|]. intros Hy.
  rewrite !scan_cons. unfold mergeStep. rewrite Hy. cbn.
  change [c] with ([c] ++ [])%list. rewrite scan_result_prefix.
  destruct (scan ([], Some y) rest) as [result cur].
  rewrite !finish_pending. unfold pendingItems. cbn. done.
Qed.

Lemma sameBase_absorb x c a : sameBase x c -> sameBase x (absorb c a).
Proof.
  unfold absorb. destruct (isType "deposit" a); [done|].
  by destruct (isType "discount" a).
Qed.

Lemma sameBase_refl x : sameBase x x.
Proof. by repeat split. Qed.

Lemma scan_base_order items : forall st xs,
  Forall2 sameBase xs (pendingItems st) ->
  Forall2 sameBase (xs ++ List.filter substantive items)%list
          (pendingItems (scan st items)).
Proof.
  induction items as [|x items IH]; intros st xs Hst.
  - cbn. by rewrite app_nil_r.
  - rewrite scan_cons. cbn [List.filter]. unfold substantive at 1.
    destruct (isAttachmentRecord x) eqn:Hx; cbn [negb].
    + apply IH. destruct st as [result [c|]].
      * rewrite mergeStep_absorb by done. unfold pendingItems in *. cbn in *.
        apply Forall2_app_inv_r in Hst
          as (xs1 & xs2 & Hresult & Hc & ->).
        apply Forall2_app; [done|].
        apply Forall2_cons_inv_r in Hc as (x0 & xs0 & Hbase & Hnil & ->).
        constructor; [by apply sameBase_absorb|done].
      * unfold mergeStep. by rewrite Hx.
    + replace (xs ++ x :: List.filter substantive items)%list
        with ((xs ++ [x]) ++ List.filter substantive items)%list
        by by rewrite <- app_assoc.
      apply IH. rewrite mergeStep_substantive_items by done.
      apply Forall2_app; [done|]. constructor; [apply sameBase_refl|done].
Qed.

Lemma mergeStep_unknown st a :
  isAttachmentRecord a = true ->
  isType "deposit" a = false ->
  isType "discount" a = false ->
  mergeStep st a = st.
Proof.
  intros Ha Hdep Hdis. destruct st as [result [c|]]; unfold mergeStep;
    by rewrite Ha, ?Hdep, ?Hdis.
Qed.

(** The scan of items and the scan of the same items without their
    [attachedTo] run in step. *)
Lemma mergeStep_strip st x :
  mergeStep (map (withAttachedTo None) (fst st),
             withAttachedTo None <$> snd st) (withAttachedTo None x)
  = (map (withAttachedTo None) (fst (mergeStep st x)),
     withAttachedTo None <$> snd (mergeStep st x)).
Proof.
  destruct st as [result [c|]]; unfold mergeStep; cbn;
    change (isAttachmentRecord (withAttachedTo None x))
      with (isAttachmentRecord x);
    change (isType "deposit" (withAttachedTo None x)) with (isType "deposit" x);
    change (isType "discount" (withAttachedTo None x)) with (isType "discount" x).
  - destruct (isAttachmentRecord x); cbn.
    + destruct (isType "deposit" x); [done|].
      by destruct (isType "discount" x).
    + by rewrite map_app.
  - by destruct (isAttachmentRecord x).
Qed.

Lemma scan_strip items : forall st,
  scan (map (withAttachedTo None) (fst st), withAttachedTo None <$> snd st)
       (map (withAttachedTo None) items)
  = (map (withAttachedTo None) (fst (scan st items)),
     withAttachedTo None <$> snd (scan st items)).
Proof.
  induction items as [|x items IH]; intros st; [done|].
  cbn [map]. rewrite !scan_cons, mergeStep_strip. apply IH.
Qed.

Lemma finish_strip st :
  finish (map (withAttachedTo None) (fst st), withAttachedTo None <$> snd st)
  = finish st.
Proof.
  rewrite !finish_pending. unfold pendingItems. cbn.
  destruct st as [result [c|]]; cbn; rewrite ?app_nil_r, ?map_app, !map_map;
    cbn; done.
Qed.

Lemma mergeAttachments_strip items :
  mergeAttachments (map (withAttachedTo None) items) = mergeAttachments items.
Proof.
  unfold mergeAttachments.
  rewrite <- (finish_strip (scan ([], None) items)), <- scan_strip. done.
Qed.

End MergeMore.

Section MergeExtras.
Import Js Parser Spec MoreSpec MergeFacts MergeMore.

(** X1. The output of a merge lists the substantive input records in
    their order, each with its name, price, quantity, flags and tax amount
    as in the input. *)
Theorem X1_merge_keeps_order :
  forall items : list RawReceiptItem.t,
    Forall2 sameBase (List.filter substantive items) (mergeAttachments items).
Proof.
  intros items. rewrite mergeAttachments_clean.
  assert (Hstart : Forall2 sameBase [] (pendingItems ([], None)))
    by constructor.
  pose proof (scan_base_order items ([], None) [] Hstart) as Hscan.
  cbn [app] in Hscan.
  induction Hscan as [|x y xs ys Hxy Hrest IH]; cbn; constructor; done.
Qed.

(** X2. An attachment whose type is neither [deposit] nor [discount] has
    no effect wherever it stands: the merge of the input is the merge of
    the input without it. *)
Theorem X2_unknown_attachment_ignored :
  forall (pre post : list RawReceiptItem.t) (a : RawReceiptItem.t),
    isAttachmentRecord a = true ->
    isType "deposit" a = false ->
    isType "discount" a = false ->
    mergeAttachments (pre ++ a :: post)%list = mergeAttachments (pre ++ post)%list.
Proof.
  intros pre post a Ha Hdep Hdis. unfold mergeAttachments.
  by rewrite !scan_app, scan_cons, mergeStep_unknown.
Qed.

Lemma X2_unknown_attachment_ignored_witness :
  mergeAttachments ([Examples.milk] ++ MoreExamples.feeLine :: [MoreExamples.loaf])%list
  = mergeAttachments ([Examples.milk] ++ [MoreExamples.loaf])%list.
Proof.
  apply X2_unknown_attachment_ignored; reflexivity.
Defined.

(** X3. Merging works group by group: a substantive record followed by
    attachments, and then by nothing or by a substantive record, gives one
    output item, the record after it absorbed the attachments from left to
    right, followed by the merge of what remains. *)
Theorem X3_merge_by_groups :
  forall (x : RawReceiptItem.t) (atts rest : list RawReceiptItem.t),
    isAttachmentRecord x = false ->
    forallb isAttachmentRecord atts = true ->
    match rest with
    | [] => True
    | y :: _ => isAttachmentRecord y = false
    end ->
    mergeAttachments (x :: atts ++ rest)%list
    = cleanItem (fold_left absorb atts x) :: mergeAttachments rest.
Proof.
  intros x atts rest Hx Hatts Hrest. unfold mergeAttachments.
  rewrite scan_cons. unfold mergeStep at 1. rewrite Hx. cbn [negb].
  rewrite scan_app, scan_attachments by done.
  by apply finish_open_item.
Qed.

Lemma X3_merge_by_groups_witness :
  mergeAttachments
    (Examples.milk :: [Examples.depositLine; Examples.discountLine]
       ++ [MoreExamples.loaf])%list
  = cleanItem (fold_left absorb [Examples.depositLine; Examples.discountLine]
                 Examples.milk)
    :: mergeAttachments [MoreExamples.loaf].
Proof.
  apply X3_merge_by_groups; reflexivity.
Defined.

(** X4. The merge never reads [attachedTo]: changing that field of any
    input records in any way leaves the output as it was. *)
Theorem X4_attachedTo_not_consulted :
  forall (link : RawReceiptItem.t -> option float)
         (items : list RawReceiptItem.t),
    mergeAttachments (map (fun x => withAttachedTo (link x) x) items)
    = mergeAttachments items.
Proof.
  intros link items.
  rewrite <- (mergeAttachments_strip (map _ items)), map_map.
  apply mergeAttachments_strip.
Qed.

End MergeExtras.

(** ** Per-item normalisation and the merged amounts: the claim *)

Module MergeGroups.
Import Js Parser Spec MoreSpec MergeFacts MergeMore.

Lemma absorb_snoc atts a c :
  fold_left absorb (atts ++ [a])%list c = absorb (fold_left absorb atts c) a.
Proof. by rewrite fold_left_app. Qed.

(** Every item the scan will emit is a substantive input record with the
    attachments merged into it absorbed one after the other. *)
Lemma scan_folded (G A : RawReceiptItem.t -> Prop) items : forall st,
  Forall (fun c => exists x atts,
              G x /\ Forall A atts /\ c = fold_left absorb atts x)
         (pendingItems st) ->
  Forall (fun y => if isAttachmentRecord y then A y else G y) items ->
  Forall (fun c => exists x atts,
              G x /\ Forall A atts /\ c = fold_left absorb atts x)
         (pendingItems (scan st items)).
Proof.
  induction items as [|y items IH]; intros st Hst Hitems; [done|].
  apply Forall_cons in Hitems as [Hy Hitems].
  rewrite scan_cons. apply IH; [|done].
  destruct (isAttachmentRecord y) eqn:Hatt.
  - destruct st as [result [c|]].
    + rewrite mergeStep_absorb by done. unfold pendingItems in *. cbn in *.
      apply Forall_app in Hst as [Hresult Hc].
      apply Forall_app. split; [done|].
      apply Forall_singleton. apply Forall_singleton in Hc
        as (x & atts & Hx & Hatts & ->).
      exists x, (atts ++ [y])%list. split; [done|]. split.
      * apply Forall_app. split; [done|]. by apply Forall_singleton.
      * by rewrite absorb_snoc.
    + unfold mergeStep. by rewrite Hatt.
  - rewrite mergeStep_substantive_items by done.
    apply Forall_app. split; [done|]. apply Forall_singleton.
    by exists y, [].
Qed.

Lemma mergeAttachments_folded items out :
  out ∈ mergeAttachments items ->
  exists x atts,
    (x ∈ items /\ isAttachmentRecord x = false)
    /\ Forall (fun a => a ∈ items /\ isAttachmentRecord a = true) atts
    /\ out = cleanItem (fold_left absorb atts x).
Proof.
  rewrite mergeAttachments_clean. intros Hout.
  apply list_elem_of_In, in_map_iff in Hout as (c & <- & Hc).
  apply list_elem_of_In in Hc.
  pose proof (scan_folded
                (fun x => x ∈ items /\ isAttachmentRecord x = false)
                (fun a => a ∈ items /\ isAttachmentRecord a = true)
                items ([], None)) as Hall.
  assert (Hemitted : Forall
            (fun c => exists x atts,
                 (x ∈ items /\ isAttachmentRecord x = false)
                 /\ Forall (fun a => a ∈ items /\ isAttachmentRecord a = true)
                           atts
                 /\ c = fold_left absorb atts x)
            (pendingItems (scan ([], None) items))).
  { apply Hall; [constructor|]. apply Forall_forall. intros y Hy.
    by destruct (isAttachmentRecord y) eqn:Hatt. }
  rewrite Forall_forall in Hemitted.
  destruct (Hemitted c Hc) as (x & atts & Hx & Hatts & ->). by exists x, atts.
Qed.

Lemma fold_absorb_base atts : forall x, sameBase x (fold_left absorb atts x).
Proof.
  induction atts as [|a atts IH] using rev_ind; intros x.
  - apply sameBase_refl.
  - rewrite absorb_snoc. by apply sameBase_absorb.
Qed.

Lemma isType_deposit_not_discount a :
  isType "deposit" a = true -> isType "discount" a = false.
Proof.
  unfold isType. destruct (RawReceiptItem.attachmentType a) as [[| | |s| |]|];
    try discriminate.
  intros Hs. apply String.eqb_eq in Hs. by subst s.
Qed.

(** A deposit is present after the merge exactly when the record had one
    or a deposit attachment was absorbed; without a deposit attachment the
    record's own deposit, present or absent, is what comes out. *)
Lemma fold_absorb_deposit atts : forall x,
  (is_Some (RawReceiptItem.deposit (fold_left absorb atts x))
   <-> is_Some (RawReceiptItem.deposit x)
       \/ Exists (fun a => isType "deposit" a = true) atts)
  /\ (Forall (fun a => isType "deposit" a = false) atts ->
      RawReceiptItem.deposit (fold_left absorb atts x)
      = RawReceiptItem.deposit x).
Proof.
  induction atts as [|a atts IH] using rev_ind; intros x.
  - cbn. split; [|done]. split; [by left|].
    intros [?|Hex]; [done|]. by apply Exists_nil in Hex.
  - rewrite absorb_snoc. destruct (IH x) as [Hiff Hkept].
    rewrite Exists_app, Exists_cons, Exists_nil, Forall_app, Forall_singleton.
    set (c := fold_left absorb atts x) in *. unfold absorb.
    destruct (isType "deposit" a) eqn:Hdep.
    + split; [|by intros [_ ?]].
      split; [by intros _; right; right; left|by intros _; eexists].
    + assert (Hsame : RawReceiptItem.deposit
                        (if isType "discount" a
                         then RawReceiptItem.set_discount
                                (Some (orZero (RawReceiptItem.discount c)
                                       - RawReceiptItem.price a)%float) c
                         else c)
                      = RawReceiptItem.deposit c)
        by by destruct (isType "discount" a).
      rewrite Hsame. split; [|by intros [? _]; apply Hkept].
      rewrite Hiff. split.
      * intros [?|?]; [by left|by right; left].
      * intros [?|[?|[?|[]]]]; [by left|by right|done].
Qed.

Lemma fold_absorb_discount atts : forall x,
  (is_Some (RawReceiptItem.discount (fold_left absorb atts x))
   <-> is_Some (RawReceiptItem.discount x)
       \/ Exists (fun a => isType "discount" a = true) atts)
  /\ (Forall (fun a => isType "discount" a = false) atts ->
      RawReceiptItem.discount (fold_left absorb atts x)
      = RawReceiptItem.discount x).
Proof.
  induction atts as [|a atts IH] using rev_ind; intros x.
  - cbn. split; [|done]. split; [by left|].
    intros [?|Hex]; [done|]. by apply Exists_nil in Hex.
  - rewrite absorb_snoc. destruct (IH x) as [Hiff Hkept].
    rewrite Exists_app, Exists_cons, Exists_nil, Forall_app, Forall_singleton.
    set (c := fold_left absorb atts x) in *. unfold absorb.
    destruct (isType "deposit" a) eqn:Hdep;
      [rewrite (isType_deposit_not_discount a Hdep)
      |destruct (isType "discount" a) eqn:Hdis].
    + change (RawReceiptItem.discount (RawReceiptItem.set_deposit _ c))
        with (RawReceiptItem.discount c).
      split; [|by intros [? _]; apply Hkept].
      rewrite Hiff. split.
      * intros [?|?]; [by left|by right; left].
      * intros [?|[?|[?|[]]]]; [by left|by right|done].
    + split; [|by intros [_ ?]].
      split; [by intros _; right; right; left|by intros _; eexists].
    + split; [|by intros [? _]; apply Hkept].
      rewrite Hiff. split.
      * intros [?|?]; [by left|by right; left].
      * intros [?|[?|[?|[]]]]; [by left|by right|done].
Qed.

End MergeGroups.

Section NormalizedOutput.
Import Js Parser Spec MoreSpec MergeFacts MergeMore MergeGroups.

Variable JSON_parse : string -> string + json.

(** C9. For every item [normalizeRawItem] returns: the name is a non-empty
    string and the price is a number that is not negative; [quantity] is
    the raw quantity when that is a positive integer and 1 when the raw
    quantity is absent or no number; [needsVerification] and [hasTax] are
    the truthiness of the raw field, hence false when it is missing and
    the raw value when it is a boolean; [taxAmount] is present exactly
    when the raw field is a number, and holds it when it is not negative;
    [deposit] and [discount] are present exactly when the raw field is a
    number, and then hold it unchanged. Every item of the parser's output
    is one of the payload's items that is not an attachment, normalized in
    this way, with attachment records of the payload absorbed into it: it
    carries the name, price, quantity, flags and tax amount of that item;
    its [deposit] is present exactly when the raw field is a number or a
    deposit attachment was absorbed, and is the normalized one, present or
    absent, when no deposit attachment was absorbed; likewise for
    [discount]. *)
Theorem C9_normalization :
  (forall (raw : json) (item : RawReceiptItem.t),
      normalizeRawItem raw = inr item ->
      (RawReceiptItem.name item <> ""
       /\ PrimFloat.ltb (RawReceiptItem.price item) 0 = false)
      /\ ((forall q, get "quantity" raw = Some (JNum q) ->
                     isPositiveInteger q = true ->
                     RawReceiptItem.quantity item = q)
          /\ (asNumber (get "quantity" raw) = None ->
              RawReceiptItem.quantity item = 1%float
              /\ isPositiveInteger (RawReceiptItem.quantity item) = true))
      /\ (RawReceiptItem.needsVerification item
          = truthy (get "needsVerification" raw)
          /\ RawReceiptItem.hasTax item = truthy (get "hasTax" raw)
          /\ (get "needsVerification" raw = None ->
              RawReceiptItem.needsVerification item = false)
          /\ (get "hasTax" raw = None -> RawReceiptItem.hasTax item = false)
          /\ (forall b, get "needsVerification" raw = Some (JBool b) ->
                        RawReceiptItem.needsVerification item = b)
          /\ (forall b, get "hasTax" raw = Some (JBool b) ->
                        RawReceiptItem.hasTax item = b))
      /\ ((is_Some (RawReceiptItem.taxAmount item)
           <-> exists x, get "taxAmount" raw = Some (JNum x))
          /\ (forall x, get "taxAmount" raw = Some (JNum x) ->
                        isNonNegative x = true ->
                        RawReceiptItem.taxAmount item = Some x)
          /\ RawReceiptItem.deposit item = asNumber (get "deposit" raw)
          /\ RawReceiptItem.discount item = asNumber (get "discount" raw)
          /\ (is_Some (RawReceiptItem.deposit item)
              <-> exists x, get "deposit" raw = Some (JNum x))
          /\ (is_Some (RawReceiptItem.discount item)
              <-> exists x, get "discount" raw = Some (JNum x))))
  /\ (forall (responseText : string) (parsed : ParsedReceiptData.t)
             (out : InternalReceiptItem.t),
         parseResponse JSON_parse responseText = inr parsed ->
         out ∈ ParsedReceiptData.items parsed ->
         exists payload rawItems raw item atts,
           JSON_parse (extractJson responseText) = inr payload
           /\ get "items" payload = Some (JArr rawItems)
           /\ raw ∈ rawItems
           /\ normalizeRawItem raw = inr item
           /\ isAttachmentRecord item = false
           /\ Forall (fun a => isAttachmentRecord a = true
                               /\ exists raw', raw' ∈ rawItems
                                               /\ normalizeRawItem raw' = inr a)
                     atts
           /\ out = asInternal (cleanItem (fold_left absorb atts item))
           /\ (InternalReceiptItem.name out = RawReceiptItem.name item
               /\ InternalReceiptItem.price out = RawReceiptItem.price item
               /\ InternalReceiptItem.quantity out = RawReceiptItem.quantity item
               /\ InternalReceiptItem.needsVerification out
                  = RawReceiptItem.needsVerification item
               /\ InternalReceiptItem.hasTax out = RawReceiptItem.hasTax item
               /\ InternalReceiptItem.taxAmount out
                  = RawReceiptItem.taxAmount item)
           /\ (is_Some (InternalReceiptItem.deposit out)
               <-> (exists x, get "deposit" raw = Some (JNum x))
                   \/ Exists (fun a => isType "deposit" a = true) atts)
           /\ (is_Some (InternalReceiptItem.discount out)
               <-> (exists x, get "discount" raw = Some (JNum x))
                   \/ Exists (fun a => isType "discount" a = true) atts)
           /\ (Forall (fun a => isType "deposit" a = false) atts ->
               InternalReceiptItem.deposit out = asNumber (get "deposit" raw))
           /\ (Forall (fun a => isType "discount" a = false) atts ->
               InternalReceiptItem.discount out
               = asNumber (get "discount" raw))).
Proof.
  split.
  - intros raw item Hnorm.
    destruct (normalizeRawItem_inr _ _ Hnorm)
      as (members & name & price & -> & Hname & Hne & Hprice & Hneg & ->).
    cbn [RawReceiptItem.name RawReceiptItem.price RawReceiptItem.quantity
         RawReceiptItem.needsVerification RawReceiptItem.hasTax
         RawReceiptItem.taxAmount RawReceiptItem.deposit
         RawReceiptItem.discount].
    split; [done|]. split; [|split].
    + split.
      * by intros q -> _.
      * intros Hq. by destruct (get "quantity" (JObj members)) as [[| |q| | |]|].
    + repeat split.
      * by intros ->.
      * by intros ->.
      * by intros b ->.
      * by intros b ->.
    + split; [apply asNumber_is_Some|]. split; [by intros x -> _|].
      split; [done|]. split; [done|]. split; apply asNumber_is_Some.
  - intros responseText parsed out Hparse Hout.
    destruct (parseResponse_items JSON_parse _ _ Hparse)
      as (payload & rawItems & items & Hpayload & Hitems & Hnorm & Hparsed).
    rewrite Hparsed in Hout.
    apply list_elem_of_In, in_map_iff in Hout as (merged & <- & Hmerged).
    apply list_elem_of_In, mergeAttachments_folded in Hmerged
      as (item & atts & (Hitem & Hsub) & Hatts & ->).
    destruct (list_elem_of_lookup_1 _ _ Hitem) as [k Hk].
    destruct (Forall2_lookup_r _ _ _ _ _ Hnorm Hk) as (raw & Hraw & Hrawnorm).
    assert (Hdep : RawReceiptItem.deposit item = asNumber (get "deposit" raw)).
    { by destruct (normalizeRawItem_inr _ _ Hrawnorm)
        as (members & name & price & -> & _ & _ & _ & _ & ->). }
    assert (Hdis : RawReceiptItem.discount item = asNumber (get "discount" raw)).
    { by destruct (normalizeRawItem_inr _ _ Hrawnorm)
        as (members & name & price & -> & _ & _ & _ & _ & ->). }
    exists payload, rawItems, raw, item, atts.
    split; [done|]. split; [done|].
    split; [by eapply list_elem_of_lookup_2|]. split; [done|]. split; [done|].
    split.
    { eapply Forall_impl; [exact Hatts|]. cbn. intros a [Ha Hatt].
      split; [done|].
      destruct (list_elem_of_lookup_1 _ _ Ha) as [j Hj].
      destruct (Forall2_lookup_r _ _ _ _ _ Hnorm Hj) as (raw' & Hraw' & Hnorm').
      exists raw'. split; [by eapply list_elem_of_lookup_2|done]. }
    split; [done|].
    destruct (fold_absorb_base atts item) as (Hn & Hp & Hq & Hv & Ht & Ha).
    destruct (fold_absorb_deposit atts item) as (Hdiff & Hdkept).
    destruct (fold_absorb_discount atts item) as (Hsiff & Hskept).
    cbn [asInternal cleanItem InternalReceiptItem.name
         InternalReceiptItem.price InternalReceiptItem.quantity
         InternalReceiptItem.needsVerification InternalReceiptItem.hasTax
         InternalReceiptItem.taxAmount InternalReceiptItem.deposit
         InternalReceiptItem.discount RawReceiptItem.name RawReceiptItem.price
         RawReceiptItem.quantity RawReceiptItem.needsVerification
         RawReceiptItem.hasTax RawReceiptItem.taxAmount RawReceiptItem.deposit
         RawReceiptItem.discount].
    split; [done|].
    split; [by rewrite Hdiff, Hdep, asNumber_is_Some|].
    split; [by rewrite Hsiff, Hdis, asNumber_is_Some|].
    split; [by intros Hnone; rewrite Hdkept|by intros Hnone; rewrite Hskept].
Qed.

End NormalizedOutput.

Section NormalizationOnSamples.
Import Js Parser Spec MoreSpec.
Import ParserExamples RunExamples MoreExamples.

(** An item with only a name and a price is normalized to quantity 1,
    both flags false and no amounts; and the first item the parser returns
    for the sample response is a payload item, normalized, with attachment
    records absorbed, whose name it carries. *)
Lemma C9_normalization_witness :
  (normalizeRawItem plainItem = inr loaf
   /\ RawReceiptItem.quantity loaf = 1%float
   /\ isPositiveInteger (RawReceiptItem.quantity loaf) = true
   /\ RawReceiptItem.hasTax loaf = false
   /\ ~ is_Some (RawReceiptItem.taxAmount loaf))
  /\ exists raw item atts,
       normalizeRawItem raw = inr item
       /\ isAttachmentRecord item = false
       /\ InternalReceiptItem.mk "ORG MLK" 12.5 1 false None (Some 1%float)
            None true
          = asInternal (cleanItem (fold_left absorb atts item))
       /\ RawReceiptItem.name item = "ORG MLK".
Proof.
  destruct (C9_normalization parseKnown) as (Hitem & Houtput).
  split.
  - destruct (Hitem plainItem loaf eq_refl)
      as (_ & (_ & Hdefault) & (_ & _ & _ & Hflag & _) & (Htax & _)).
    destruct (Hdefault eq_refl) as (Hone & Hpositive).
    split; [reflexivity|]. split; [exact Hone|]. split; [exact Hpositive|].
    split; [by apply Hflag|].
    intros Hsome. apply Htax in Hsome as [x Hx]. discriminate.
  - destruct (Houtput sampleResponse
                {| ParsedReceiptData.items := sampleItems;
                   ParsedReceiptData.total := 24.5 |}
                (InternalReceiptItem.mk "ORG MLK" 12.5 1 false None
                   (Some 1%float) None true))
      as (payload & rawItems & raw & item & atts & _ & _ & _ & Hnorm & Hsub
          & _ & Hout & (Hname & _) & _).
    + vm_compute. reflexivity.
    + apply list_elem_of_In. left. reflexivity.
    + exists raw, item, atts. by rewrite <- Hname.
Defined.

(** C9 as the claim words it fails. On [oddItem] the parser returns
    [hasTax = true] for a raw [hasTax] that is no boolean, a quantity that
    is not a positive integer and a negative [taxAmount]. On the sample
    response the first item of the output carries a deposit although the
    payload item of that name has no [deposit] field: it comes from the
    deposit line that follows it. *)
Lemma C9_counterexample :
  (normalizeRawItem oddItem = inr oddItemNormalized
   /\ (get "hasTax" oddItem = Some (JStr "no")
       /\ RawReceiptItem.hasTax oddItemNormalized = true)
   /\ isPositiveInteger (RawReceiptItem.quantity oddItemNormalized) = false
   /\ (RawReceiptItem.taxAmount oddItemNormalized = Some (-1)%float
       /\ isNonNegative (-1)%float = false))
  /\ (parseResponse parseKnown sampleResponse
      = inr {| ParsedReceiptData.items := sampleItems;
               ParsedReceiptData.total := 24.5 |}
      /\ sampleItems !! 0
         = Some (InternalReceiptItem.mk "ORG MLK" 12.5 1 false None
                   (Some 1%float) None true)
      /\ exists raw rest,
           get "items" samplePayload = Some (JArr (raw :: rest))
           /\ get "name" raw = Some (JStr "ORG MLK")
           /\ get "deposit" raw = None
           /\ Forall (fun other => get "name" other <> Some (JStr "ORG MLK"))
                     rest).
Proof.
  split; [by repeat split|]. split; [vm_compute; reflexivity|].
  split; [reflexivity|]. eexists _, _. split; [reflexivity|].
  split; [reflexivity|]. split; [reflexivity|].
  repeat constructor; discriminate.
Qed.

End NormalizationOnSamples.

(** ** The orchestrator, position by position *)

Section OrchestratorMore.
Import Js Parser Extract Spec MoreSpec Sequencing ExtractFacts.

Context {Image World : Type}.
Variable JSON_parse : string -> string + json.
Variable EXTRACTION_PROMPT : string.
Variable callGemini : Image -> string -> string + string.
Variable batchVerifyItems :
  list InternalReceiptItem.t -> string + gmap string string.

Local Abbreviation extractW :=
  (extractReceiptItems (World := World) JSON_parse EXTRACTION_PROMPT callGemini
     batchVerifyItems).

Lemma resolvedName_nonempty outcome verifiedName :
  resolvedName outcome = Some verifiedName -> verifiedName <> "".
Proof.
  destruct outcome as [message|[result|]]; cbn; try discriminate.
  destruct (String.eqb (VerificationResult.verifiedName result) "") eqn:He;
    [discriminate|].
  intros [= <-]. by apply String.eqb_neq.
Qed.

Lemma applyVerificationMap_cases verificationMap item :
  applyVerificationMap verificationMap item = item
  \/ (InternalReceiptItem.needsVerification item = true
      /\ exists verifiedName,
           verificationMap !! InternalReceiptItem.name item = Some verifiedName
           /\ verifiedName <> ""
           /\ applyVerificationMap verificationMap item
              = resolve verifiedName item).
Proof.
  unfold applyVerificationMap.
  destruct (InternalReceiptItem.needsVerification item) eqn:Hf; [|by left].
  destruct (verificationMap !! InternalReceiptItem.name item) as [v|] eqn:Hm;
    [|by left].
  cbn. destruct (String.eqb v "") eqn:He; cbn; [by left|].
  right. split; [done|]. exists v. by apply String.eqb_neq in He.
Qed.

(** What the batch pass does at one position. *)
Lemma autoVerifyPass_pointwise (options : option (@ExtractOptions World))
    parsedItems k p :
  parsedItems !! k = Some p ->
  exists item1,
    autoVerifyPass batchVerifyItems options parsedItems !! k = Some item1
    /\ (item1 = p
        \/ (InternalReceiptItem.needsVerification p = true
            /\ exists verificationMap verifiedName,
                 autoVerifyEnabled options = true
                 /\ batchVerifyItems
                      (List.filter InternalReceiptItem.needsVerification
                         parsedItems) = inr verificationMap
                 /\ verificationMap !! InternalReceiptItem.name p
                    = Some verifiedName
                 /\ verifiedName <> ""
                 /\ item1 = resolve verifiedName p)).
Proof.
  intros Hk.
  destruct (autoVerifyPass_cases batchVerifyItems options parsedItems)
    as [->|(verificationMap & Hon & Hbatch & ->)].
  - exists p. by split; [|left].
  - exists (applyVerificationMap verificationMap p).
    rewrite lookup_map, Hk. split; [done|].
    destruct (applyVerificationMap_cases verificationMap p)
      as [->|(Hf & v & Hm & Hne & ->)]; [by left|].
    right. split; [done|]. by exists verificationMap, v.
Qed.

(** What the callback pass does at one position. *)
Lemma callbackPass_pointwise (options : option (@ExtractOptions World))
    responseText items1 w final w' log k item :
  callbackPass options responseText items1 w = (final, w', log) ->
  items1 !! k = Some item ->
  exists f,
    final !! k = Some f
    /\ (f = item
        \/ (InternalReceiptItem.needsVerification item = true
            /\ exists c verifiedName,
                 c ∈ log /\ callIndex c = k
                 /\ callName c = InternalReceiptItem.name item
                 /\ resolvedName (callOutcome c) = Some verifiedName
                 /\ f = resolve verifiedName item)).
Proof.
  intros Hrun Hk.
  destruct (InternalReceiptItem.needsVerification item) eqn:Hf.
  - destruct (callbackOf options) as [callback|] eqn:Hcb.
    + destruct (callbackPass_spec _ _ _ _ _ _ _ Hrun)
        as (_ & Hidx & _ & Hcalls).
      rewrite Hcb in Hidx.
      assert (Hin : k ∈ map callIndex log).
      { rewrite Hidx. apply flaggedFrom_elem. by exists k, item. }
      apply list_elem_of_In, in_map_iff in Hin as (c & Hck & Hc).
      apply list_elem_of_In in Hc. rewrite Forall_forall in Hcalls.
      destruct (Hcalls c Hc) as (item' & Hi' & _ & Hn & _ & Hout).
      rewrite Hck in Hi', Hout. rewrite Hk in Hi'. injection Hi' as <-.
      rewrite applyOutcome_resolvedName in Hout.
      destruct (resolvedName (callOutcome c)) as [v|] eqn:Hres.
      * exists (resolve v item). split; [done|]. right. split; [done|].
        by exists c, v.
      * exists item. by split; [|left].
    + unfold callbackPass in Hrun. rewrite Hcb in Hrun.
      injection Hrun as <- <- <-. exists item. by split; [|left].
  - destruct (callbackPass_spec _ _ _ _ _ _ _ Hrun) as (_ & _ & Hkeep & _).
    exists item. split; [by apply Hkeep|by left].
Qed.

Lemma flaggedFrom_length items : forall base,
  length (flaggedFrom base items)
  = length (List.filter InternalReceiptItem.needsVerification items).
Proof.
  induction items as [|x items IH]; intros base; cbn; [done|].
  destruct (InternalReceiptItem.needsVerification x); cbn; by rewrite IH.
Qed.

Lemma flaggedFrom_NoDup items : forall base, NoDup (flaggedFrom base items).
Proof.
  induction items as [|x items IH]; intros base; cbn; [constructor|].
  destruct (InternalReceiptItem.needsVerification x); [|apply IH].
  constructor; [|apply IH].
  intros Hin. apply flaggedFrom_elem in Hin as (k & _ & Hk & _). lia.
Qed.

Lemma flagged_after_batch (options : option (@ExtractOptions World)) parsedItems :
  length (List.filter InternalReceiptItem.needsVerification
            (autoVerifyPass batchVerifyItems options parsedItems))
  <= length (List.filter InternalReceiptItem.needsVerification parsedItems).
Proof.
  destruct (autoVerifyPass_cases batchVerifyItems options parsedItems)
    as [->|(verificationMap & _ & _ & ->)]; [done|].
  induction parsedItems as [|p items IH]; cbn; [done|].
  destruct (InternalReceiptItem.needsVerification
              (applyVerificationMap verificationMap p)) eqn:Hf.
  - apply applyVerificationMap_flag in Hf as [-> _]. cbn. lia.
  - destruct (InternalReceiptItem.needsVerification p); cbn; lia.
Qed.

Lemma callbackLoop_unflagged (callback : @VerificationCallback World)
    responseText pending :
  forall visited w log,
    forallb (fun item => negb (InternalReceiptItem.needsVerification item))
            pending = true ->
    callbackLoop callback responseText visited pending w log
    = ((visited ++ pending)%list, w, log).
Proof.
  induction pending as [|item rest IH]; intros visited w log Hall; cbn.
  - by rewrite app_nil_r.
  - cbn in Hall. apply andb_prop in Hall as [Hitem Hall].
    apply negb_true_iff in Hitem. rewrite Hitem, IH by done.
    by rewrite <- app_assoc.
Qed.

Lemma filter_unflagged (items : list InternalReceiptItem.t) :
  forallb (fun item => negb (InternalReceiptItem.needsVerification item))
          items = true ->
  List.filter InternalReceiptItem.needsVerification items = [].
Proof.
  induction items as [|item rest IH]; cbn; [done|].
  intros Hall. apply andb_prop in Hall as [Hitem Hall].
  apply negb_true_iff in Hitem. rewrite Hitem. by apply IH.
Qed.

(** Each final item is the parsed item or the parsed item under a
    non-empty name. *)
Lemma resolution_pointwise (options : option (@ExtractOptions World))
    responseText parsedItems final w w' log :
  orchestrate batchVerifyItems options responseText parsedItems w
  = (final, w', log) ->
  length final = length parsedItems
  /\ forall k p,
       parsedItems !! k = Some p ->
       exists f,
         final !! k = Some f
         /\ (f = p \/ exists verifiedName,
                        verifiedName <> "" /\ f = resolve verifiedName p).
Proof.
  intros Hrun. unfold orchestrate in Hrun. split.
  { destruct (callbackPass_spec _ _ _ _ _ _ _ Hrun) as (-> & _).
    apply autoVerifyPass_length. }
  intros k p Hk.
  destruct (autoVerifyPass_pointwise options parsedItems k p Hk)
    as (item1 & Hk1 & Hbatch).
  destruct (callbackPass_pointwise _ _ _ _ _ _ _ _ _ Hrun Hk1)
    as (f & Hf & Hcb).
  exists f. split; [done|].
  destruct Hbatch as [->|(Hflag & m & v & _ & _ & _ & Hne & ->)].
  - destruct Hcb as [->|(_ & c & v & _ & _ & _ & Hres & ->)]; [by left|].
    right. exists v. split; [by eapply resolvedName_nonempty|done].
  - destruct Hcb as [->|(Hflag' & _)]; [|discriminate].
    right. by exists v.
Qed.

(** X5. Each item the two passes end with is the parsed item at the same
    position, untouched, or that item with a non-empty name in place of its
    own and its flag cleared; the second happens only to a flagged item,
    and the name is then the one the batch source returned for the item's
    name or the one the configured callback returned when it was applied,
    for that position, to the item's name. Price, quantity, tax and the
    merged amounts never change. The log the run leaves is the callback's
    history: its entries are the applications of the callback, one after
    the other from the caller's world to the one the run ends in. *)
Theorem X5_resolution_is_sound :
  forall (options : option (@ExtractOptions World)) (responseText : string)
         (parsedItems final : list InternalReceiptItem.t) (w w' : World)
         (log : list Call),
    orchestrate batchVerifyItems options responseText parsedItems w
    = (final, w', log) ->
    length final = length parsedItems
    /\ (forall callback,
           callbackOf options = Some callback -> threaded callback w log w')
    /\ forall k p,
         parsedItems !! k = Some p ->
         exists f,
           final !! k = Some f
           /\ sameAmounts p f
           /\ (f = p
               \/ (InternalReceiptItem.needsVerification p = true
                   /\ exists verifiedName,
                        verifiedName <> ""
                        /\ f = resolve verifiedName p
                        /\ ((exists verificationMap,
                                autoVerifyEnabled options = true
                                /\ batchVerifyItems
                                     (List.filter
                                        InternalReceiptItem.needsVerification
                                        parsedItems) = inr verificationMap
                                /\ verificationMap !! InternalReceiptItem.name p
                                   = Some verifiedName)
                            \/ (exists callback c w0 w1,
                                   callbackOf options = Some callback
                                   /\ c ∈ log /\ callIndex c = k
                                   /\ callName c = InternalReceiptItem.name p
                                   /\ callback (InternalReceiptItem.name p)
                                        (callContext c) w0
                                      = (callOutcome c, w1)
                                   /\ resolvedName (callOutcome c)
                                      = Some verifiedName)))).
Proof.
  intros options responseText parsedItems final w w' log Hrun.
  unfold orchestrate in Hrun.
  destruct (callbackPass_threaded _ _ _ _ _ _ _ Hrun) as (Hthr & Hnone).
  split.
  { destruct (callbackPass_spec _ _ _ _ _ _ _ Hrun) as (-> & _).
    apply autoVerifyPass_length. }
  split; [exact Hthr|].
  intros k p Hk.
  destruct (autoVerifyPass_pointwise options parsedItems k p Hk)
    as (item1 & Hk1 & Hbatch).
  destruct (callbackPass_pointwise _ _ _ _ _ _ _ _ _ Hrun Hk1)
    as (f & Hf & Hcb).
  exists f. split; [done|].
  destruct Hbatch as [->|(Hflag & m & v & Hon & Hb & Hm & Hne & ->)].
  - destruct Hcb as [->|(Hflag & c & v & Hc & Hck & Hn & Hres & ->)].
    + split; [by repeat split|by left].
    + split; [by repeat split|]. right. split; [done|]. exists v.
      split; [by eapply resolvedName_nonempty|]. split; [done|].
      right. destruct (callbackOf options) as [callback|] eqn:Hcb.
      * destruct (threaded_elem callback log w w' c (Hthr _ eq_refl) Hc)
          as (w0 & w1 & Happ).
        rewrite Hn in Happ. by exists callback, c, w0, w1.
      * destruct (Hnone eq_refl) as (_ & -> & _). by apply elem_of_nil in Hc.
  - destruct Hcb as [->|(Hflag' & _)]; [|discriminate].
    split; [by repeat split|]. right. split; [done|]. exists v.
    split; [done|]. split; [done|]. left. by exists m.
Qed.

(** X6. When no parsed item is flagged, or when automatic verification is
    switched off and no callback is given, the orchestrator returns the
    items as parsed, invokes no callback and leaves the caller's world
    alone, whatever the batch source would have answered. *)
Theorem X6_nothing_to_verify :
  forall (options : option (@ExtractOptions World)) (responseText : string)
         (parsedItems : list InternalReceiptItem.t) (w : World),
    forallb (fun item => negb (InternalReceiptItem.needsVerification item))
            parsedItems = true
    \/ (autoVerifyEnabled options = false /\ callbackOf options = None) ->
    orchestrate batchVerifyItems options responseText parsedItems w
    = (parsedItems, w, []).
Proof.
  intros options responseText parsedItems w [Hnone|[Hoff Hnocb]];
    unfold orchestrate, autoVerifyPass, callbackPass.
  - rewrite (filter_unflagged _ Hnone). cbn [length Nat.ltb Nat.leb].
    rewrite andb_false_r.
    destruct (callbackOf options) as [callback|]; [|done].
    by rewrite callbackLoop_unflagged.
  - by rewrite Hoff, Hnocb.
Qed.

(** X7. The applications of the callback are the entries of the log, one
    after the other from the caller's world to the one the run ends in.
    The callback is applied at most once for a position, and no more often
    than there are flagged items among the parsed ones; without a callback
    nothing is applied and the caller's world is as before. *)
Theorem X7_callback_invocations_bounded :
  forall (options : option (@ExtractOptions World)) (responseText : string)
         (parsedItems final : list InternalReceiptItem.t) (w w' : World)
         (log : list Call),
    orchestrate batchVerifyItems options responseText parsedItems w
    = (final, w', log) ->
    NoDup (map callIndex log)
    /\ length log
       <= length (List.filter InternalReceiptItem.needsVerification parsedItems)
    /\ (callbackOf options = None -> log = [] /\ w' = w)
    /\ (forall callback,
           callbackOf options = Some callback -> threaded callback w log w').
Proof.
  intros options responseText parsedItems final w w' log Hrun.
  unfold orchestrate in Hrun.
  destruct (callbackPass_spec _ _ _ _ _ _ _ Hrun) as (_ & Hidx & _).
  destruct (callbackPass_threaded _ _ _ _ _ _ _ Hrun) as (Hthr & _).
  split; [|split; [|split; [|exact Hthr]]].
  - rewrite Hidx. destruct (callbackOf options);
      [apply flaggedFrom_NoDup|constructor].
  - rewrite <- (length_map callIndex), Hidx.
    destruct (callbackOf options); [|cbn; lia].
    rewrite flaggedFrom_length. apply flagged_after_batch.
  - intros Hnocb. unfold callbackPass in Hrun. rewrite Hnocb in Hrun.
    by injection Hrun as _ <- <-.
Qed.

(** X8. Every entry of the log is an application of the configured
    callback to the entry's name and context, and the entries follow one
    another from the caller's world to the one the run ends in. The
    context the callback is applied to holds the response text as the
    oracle returned it and a list with one public item per parsed item;
    the entry at the application's own position carries the name the
    callback is asked about, and the amounts of the parsed item there. *)
Theorem X8_context_is_consistent :
  forall (options : option (@ExtractOptions World)) (responseText : string)
         (parsedItems final : list InternalReceiptItem.t) (w w' : World)
         (log : list Call) (c : Call),
    orchestrate batchVerifyItems options responseText parsedItems w
    = (final, w', log) ->
    c ∈ log ->
    (exists callback w0 w1,
        callbackOf options = Some callback
        /\ threaded callback w log w'
        /\ callback (callName c) (callContext c) w0 = (callOutcome c, w1))
    /\ VerificationContext.rawText (callContext c) = responseText
    /\ length (VerificationContext.allItems (callContext c)) = length parsedItems
    /\ exists p entry,
         parsedItems !! callIndex c = Some p
         /\ VerificationContext.allItems (callContext c) !! callIndex c
            = Some entry
         /\ ReceiptItem.name entry = callName c
         /\ entry = toPublic p.
Proof.
  intros options responseText parsedItems final w w' log c Hrun Hc.
  unfold orchestrate in Hrun.
  set (items1 := autoVerifyPass batchVerifyItems options parsedItems) in *.
  destruct (callbackPass_spec _ _ _ _ _ _ _ Hrun) as (Hlen & _ & _ & Hcalls).
  destruct (callbackPass_threaded _ _ _ _ _ _ _ Hrun) as (Hthr & Hnone).
  split.
  { destruct (callbackOf options) as [callback|] eqn:Hcb.
    - destruct (threaded_elem callback log w w' c (Hthr _ eq_refl) Hc)
        as (w0 & w1 & Happ).
      exists callback, w0, w1. split; [done|]. split; [by apply Hthr|done].
    - destruct (Hnone eq_refl) as (_ & Hlog & _). rewrite Hlog in Hc.
      by apply elem_of_nil in Hc. }
  rewrite Forall_forall in Hcalls.
  destruct (Hcalls c Hc) as (item1 & Hi1 & Hf1 & Hn & -> & Hout).
  assert (Hlt : callIndex c < length items1) by by eapply lookup_lt_Some.
  assert (Hlen1 : length items1 = length parsedItems)
    by apply autoVerifyPass_length.
  cbn. split; [done|]. split.
  { unfold snapshot. rewrite length_map, length_app, length_take, length_drop.
    lia. }
  destruct (lookup_lt_is_Some_2 parsedItems (callIndex c)) as [p Hp]; [lia|].
  destruct (autoVerifyPass_lookup batchVerifyItems options parsedItems _ p Hp)
    as (item1' & Hi1' & _ & Hkept).
  fold items1 in Hi1'. rewrite Hi1 in Hi1'. injection Hi1' as <-.
  pose proof (Hkept Hf1) as ->.
  exists p, (toPublic p). split; [done|]. split; [|done].
  unfold snapshot. rewrite lookup_map, lookup_app_r by (rewrite length_take; lia).
  rewrite length_take, lookup_drop.
  replace (callIndex c + (callIndex c - callIndex c `min` length final))
    with (callIndex c) by lia.
  by rewrite Hi1.
Qed.

(** X9. A call throws only what the oracle client or the parser threw: an
    oracle error is passed on as it is, and whenever a call ends in an
    error no callback was invoked and the caller's world is as before. *)
Theorem X9_errors_come_from_oracle_or_parser :
  forall (image : Image) (options : option (@ExtractOptions World)) (w : World),
    (forall message,
        callGemini image EXTRACTION_PROMPT = inl message ->
        extractW image options w = (inl message, w, []))
    /\ (forall message w' log,
           extractW image options w = (inl message, w', log) ->
           (callGemini image EXTRACTION_PROMPT = inl message
            \/ exists responseText,
                 callGemini image EXTRACTION_PROMPT = inr responseText
                 /\ parseResponse JSON_parse responseText = inl message)
           /\ w' = w /\ log = []).
Proof.
  intros image options w. split.
  - intros message Horacle. unfold extractReceiptItems. by rewrite Horacle.
  - intros message w' log. unfold extractReceiptItems.
    destruct (callGemini image EXTRACTION_PROMPT) as [e|responseText].
    + intros [= <- <- <-]. by split; [left|].
    + destruct (parseResponse JSON_parse responseText) as [e|parsed] eqn:Hparse.
      * intros [= <- <- <-]. split; [|done]. right. by exists responseText.
      * destruct (orchestrate _ _ _ _ _) as [[final w1] log1]. discriminate.
Qed.

End OrchestratorMore.

(** ** What a successful parse returns *)

Section ParseMore.
Import Js Parser Extract Spec MoreSpec MergeFacts MergeMore ExtractFacts.

Context {Image World : Type}.
Variable JSON_parse : string -> string + json.
Variable EXTRACTION_PROMPT : string.
Variable callGemini : Image -> string -> string + string.
Variable batchVerifyItems :
  list InternalReceiptItem.t -> string + gmap string string.

Lemma names_of_merge items :
  map RawReceiptItem.name (mergeAttachments items)
  = map RawReceiptItem.name (List.filter substantive items).
Proof.
  rewrite mergeAttachments_clean.
  assert (Hstart : Forall2 sameBase [] (pendingItems ([], None)))
    by constructor.
  pose proof (scan_base_order items ([], None) [] Hstart) as Hscan.
  cbn [app] in Hscan.
  induction Hscan as [|x y xs ys Hxy Hrest IH]; cbn; [done|].
  destruct Hxy as (-> & _). by rewrite IH.
Qed.

Lemma normalized_is_attachment raw item :
  normalizeRawItem raw = inr item ->
  isAttachmentRecord item = rawIsAttachment raw
  /\ RawReceiptItem.name item = rawName raw.
Proof.
  intros Hnorm.
  destruct (normalizeRawItem_inr _ _ Hnorm)
    as (members & name & price & -> & Hname & _ & _ & _ & ->).
  unfold isAttachmentRecord, rawIsAttachment, rawName. cbn. rewrite Hname.
  by destruct (assoc "isAttachment" members) as [[|[|]| | | |]|].
Qed.

Lemma substantive_names rawItems items :
  Forall2 (fun raw item => normalizeRawItem raw = inr item) rawItems items ->
  map RawReceiptItem.name (List.filter substantive items)
  = map rawName (List.filter (fun raw => negb (rawIsAttachment raw)) rawItems)
  /\ length (List.filter substantive items)
     + length (List.filter rawIsAttachment rawItems) = length rawItems.
Proof.
  induction 1 as [|raw item rawItems items Hnorm Hrest [IHn IHl]]; [done|].
  destruct (normalized_is_attachment _ _ Hnorm) as [Hatt Hname].
  cbn [List.filter].
  assert (Hsub : substantive item = negb (rawIsAttachment raw))
    by (unfold substantive; by rewrite Hatt).
  rewrite Hsub. destruct (rawIsAttachment raw); cbn [negb map length].
  - split; [done|lia].
  - rewrite Hname, IHn. split; [done|lia].
Qed.

Lemma parseResponse_nonnegative responseText parsed :
  parseResponse JSON_parse responseText = inr parsed ->
  PrimFloat.ltb (ParsedReceiptData.total parsed) 0 = false
  /\ Forall (fun item =>
               InternalReceiptItem.name item <> ""
               /\ PrimFloat.ltb (InternalReceiptItem.price item) 0 = false)
            (ParsedReceiptData.items parsed).
Proof.
  intros Hparse. split.
  - revert Hparse. unfold parseResponse, parseBody.
    destruct (JSON_parse (extractJson responseText)) as [e|payload];
      [discriminate|].
    destruct (negb (truthy (Some payload)) || _); [discriminate|].
    destruct (get "items" payload) as [[| | | |rawItems|]|]; try discriminate.
    destruct (get "total" payload) as [[| |total| | |]|]; try discriminate.
    destruct (PrimFloat.ltb total 0) eqn:Hneg; [discriminate|].
    destruct (normalizeItems 0 rawItems); [discriminate|].
    by intros [= <-].
  - destruct (parseResponse_items JSON_parse _ _ Hparse)
      as (payload & rawItems & items & _ & _ & Hnorm & ->).
    apply Forall_forall. intros out Hout.
    apply list_elem_of_In, in_map_iff in Hout as (merged & <- & Hmerged).
    apply list_elem_of_In, mergeAttachments_base in Hmerged
      as (item & Hitem & _ & Hn & Hp & _).
    destruct (list_elem_of_lookup_1 _ _ Hitem) as [k Hk].
    destruct (Forall2_lookup_r _ _ _ _ _ Hnorm Hk) as (raw & _ & Hraw).
    destruct (normalizeRawItem_inr _ _ Hraw)
      as (members & name & price & _ & _ & Hne & _ & Hneg & ->).
    cbn in *. by rewrite Hn, Hp.
Qed.

(** X10. A successful parse returns one item for each item of the payload
    that is not marked [isAttachment: true], in the payload's order and
    under the payload's names; the items so marked are the ones missing
    from the count. *)
Theorem X10_parse_keeps_substantive_items :
  forall (responseText : string) (parsed : ParsedReceiptData.t),
    parseResponse JSON_parse responseText = inr parsed ->
    exists payload rawItems,
      JSON_parse (extractJson responseText) = inr payload
      /\ get "items" payload = Some (JArr rawItems)
      /\ map InternalReceiptItem.name (ParsedReceiptData.items parsed)
         = map rawName
             (List.filter (fun raw => negb (rawIsAttachment raw)) rawItems)
      /\ length (ParsedReceiptData.items parsed)
         + length (List.filter rawIsAttachment rawItems)
         = length rawItems.
Proof.
  intros responseText parsed Hparse.
  destruct (parseResponse_items JSON_parse _ _ Hparse)
    as (payload & rawItems & items & Hpayload & Hitems & Hnorm & ->).
  exists payload, rawItems. split; [done|]. split; [done|].
  destruct (substantive_names _ _ Hnorm) as [Hnames Hcount].
  split.
  - rewrite map_map. cbn. rewrite <- Hnames, <- names_of_merge. done.
  - by rewrite length_map, mergeAttachments_length.
Qed.

(** X11. Every item a call returns has a non-empty name and a price that
    is not negative, and the returned total is not negative, whatever the
    verification sources answered. *)
Theorem X11_returned_data_is_well_formed :
  forall (image : Image) (options : option (@ExtractOptions World))
         (w w' : World) (data : ReceiptData.t) (log : list Call),
    extractReceiptItems JSON_parse EXTRACTION_PROMPT callGemini
      batchVerifyItems image options w = (inr data, w', log) ->
    PrimFloat.ltb (ReceiptData.total data) 0 = false
    /\ Forall (fun item =>
                 ReceiptItem.name item <> ""
                 /\ PrimFloat.ltb (ReceiptItem.price item) 0 = false)
              (ReceiptData.items data).
Proof.
  intros image options w w' data log Hrun.
  apply (extract_inr JSON_parse EXTRACTION_PROMPT callGemini batchVerifyItems)
    in Hrun as (responseText & parsed & final & _ & Hparse & Horch & ->).
  destruct (parseResponse_nonnegative _ _ Hparse) as [Htotal Hitems].
  split; [done|]. cbn. apply Forall_forall. intros out Hout.
  apply list_elem_of_In, in_map_iff in Hout as (f & <- & Hf).
  apply list_elem_of_In, list_elem_of_lookup_1 in Hf as [k Hk].
  destruct (resolution_pointwise batchVerifyItems options responseText
              (ParsedReceiptData.items parsed) final w w' log Horch)
    as [Hlen Hpoint].
  assert (Hlt : k < length (ParsedReceiptData.items parsed)).
  { rewrite <- Hlen. by eapply lookup_lt_Some. }
  destruct (lookup_lt_is_Some_2 _ _ Hlt) as [p Hp].
  rewrite Forall_forall in Hitems.
  destruct (Hitems p (list_elem_of_lookup_2 _ _ _ Hp)) as [Hname Hprice].
  destruct (Hpoint k p Hp) as (f' & Hf' & Hres).
  rewrite Hk in Hf'. injection Hf' as <-.
  destruct Hres as [->|(v & Hne & ->)]; cbn; done.
Qed.

End ParseMore.

(** ** Strings: trimming and searching *)

Module StringFacts.
Import Js Parser MoreSpec TextSpec.

Lemma sapp_cons c s t : String c s ++ t = String c (s ++ t).
Proof. reflexivity. Qed.

Lemma sapp_nil_l s : "" ++ s = s.
Proof. reflexivity. Qed.

Lemma sapp_nil_r s : s ++ "" = s.
Proof. induction s as [|c s IH]; [done|]. by rewrite sapp_cons, IH. Qed.

Lemma sapp_assoc s t u : (s ++ t) ++ u = s ++ (t ++ u).
Proof. induction s as [|c s IH]; [done|]. by rewrite !sapp_cons, IH. Qed.

Lemma slength_app s t : String.length (s ++ t) = String.length s + String.length t.
Proof. induction s as [|c s IH]; [done|]. rewrite sapp_cons. cbn. by rewrite IH. Qed.

Lemma rev_app_eq s : forall t, String.rev_app s t = String.rev s ++ t.
Proof.
  unfold String.rev. induction s as [|c s IH]; intros t; cbn; [done|].
  rewrite (IH (String c t)), (IH (String c "")), sapp_assoc. done.
Qed.

Lemma rev_cons c s : String.rev (String c s) = String.rev s ++ String c "".
Proof. unfold String.rev at 1. cbn. apply rev_app_eq. Qed.

Lemma rev_app s t : String.rev (s ++ t) = String.rev t ++ String.rev s.
Proof.
  induction s as [|c s IH].
  - change (String.rev "") with "". by rewrite sapp_nil_l, sapp_nil_r.
  - by rewrite sapp_cons, !rev_cons, IH, sapp_assoc.
Qed.

Lemma rev_involutive s : String.rev (String.rev s) = s.
Proof.
  induction s as [|c s IH]; [done|].
  by rewrite rev_cons, rev_app, IH.
Qed.

Lemma trimStart_solid s : startsSolid (trimStart s).
Proof.
  induction s as [|c s IH]; cbn; [done|].
  destruct (isWhiteSpace c) eqn:Hc; [done|]. cbn. done.
Qed.

Lemma trimStart_of_solid s : startsSolid s -> trimStart s = s.
Proof. destruct s as [|c s]; cbn; [done|]. by intros ->. Qed.

Lemma trimStart_idem s : trimStart (trimStart s) = trimStart s.
Proof. apply trimStart_of_solid, trimStart_solid. Qed.

Lemma trimStart_app s t :
  startsSolid t -> trimStart (s ++ t) = trimStart s ++ t.
Proof.
  intros Ht. induction s as [|c s IH].
  - rewrite sapp_nil_l. by apply trimStart_of_solid.
  - rewrite sapp_cons. cbn. destruct (isWhiteSpace c); [done|].
    by rewrite sapp_cons.
Qed.

Lemma trimStart_suffix s : exists w, s = w ++ trimStart s.
Proof.
  induction s as [|c s [w IH]]; cbn; [by exists ""|].
  destruct (isWhiteSpace c).
  - exists (String c w). by rewrite sapp_cons, <- IH.
  - by exists "".
Qed.

Lemma trimEnd_prefix s : exists w, s = trimEnd s ++ w.
Proof.
  unfold trimEnd. destruct (trimStart_suffix (String.rev s)) as [w Hw].
  exists (String.rev w).
  rewrite <- rev_app, <- Hw. by rewrite rev_involutive.
Qed.

Lemma trimEnd_app z post :
  startsSolid (String.rev z) -> trimEnd (z ++ post) = z ++ trimEnd post.
Proof.
  intros Hz. unfold trimEnd.
  by rewrite rev_app, trimStart_app, rev_app, rev_involutive.
Qed.

Lemma trimEnd_idem s : trimEnd (trimEnd s) = trimEnd s.
Proof. unfold trimEnd. by rewrite rev_involutive, trimStart_idem. Qed.

Lemma trimEnd_solid s : startsSolid s -> startsSolid (trimEnd s).
Proof.
  destruct s as [|c s]; [done|]. intros Hc.
  change (String c s) with (String c "" ++ s).
  rewrite trimEnd_app by done. by rewrite sapp_cons.
Qed.

Lemma trim_idem s : trim (trim s) = trim s.
Proof.
  unfold trim.
  rewrite (trimStart_of_solid (trimEnd (trimStart s))).
  - apply trimEnd_idem.
  - apply trimEnd_solid, trimStart_solid.
Qed.

Lemma trim_trimStart s : trim (trimStart s) = trim s.
Proof. unfold trim. by rewrite trimStart_idem. Qed.

(** *** Prefixes and the search for a pattern *)

Lemma prefix_nil s : String.prefix "" s = true.
Proof. by destruct s. Qed.

Lemma prefix_cons a b p s :
  String.prefix (String a p) (String b s)
  = if ascii_dec a b then String.prefix p s else false.
Proof. reflexivity. Qed.

Lemma prefix_cons_ne a b p s :
  a <> b -> String.prefix (String a p) (String b s) = false.
Proof. intros Hne. rewrite prefix_cons. by destruct (ascii_dec a b). Qed.

Lemma prefix_app p : forall x y,
  String.prefix p x = true -> String.prefix p (x ++ y) = true.
Proof.
  induction p as [|a p IH]; intros x y Hp; [apply prefix_nil|].
  destruct x as [|b x]; [done|]. rewrite sapp_cons. cbn in *.
  destruct (ascii_dec a b); [by apply IH|done].
Qed.

Lemma prefix_split p : forall s,
  String.prefix p s = true ->
  s = p ++ String.substring (String.length p)
             (String.length s - String.length p) s.
Proof.
  induction p as [|a p IH]; intros s Hs.
  - rewrite sapp_nil_l. cbn [String.length]. rewrite Nat.sub_0_r. clear Hs.
    induction s as [|c s IHs]; cbn; [done|]. by rewrite <- IHs.
  - destruct s as [|b s]; cbn in Hs; [done|].
    destruct (ascii_dec a b) as [->|]; [|done].
    rewrite sapp_cons. cbn. by rewrite <- (IH s Hs).
Qed.

Lemma splitAt_Some p : forall s b a,
  splitAt p s = Some (b, a) -> s = b ++ p ++ a.
Proof.
  induction s as [|c s IH]; intros b a; cbn [splitAt].
  - destruct (String.prefix p "") eqn:Hp; [|done].
    intros [= <- <-]. by apply prefix_split.
  - destruct (String.prefix p (String c s)) eqn:Hp.
    + intros [= <- <-]. by apply prefix_split.
    + destruct (splitAt p s) as [[b' a']|] eqn:Hrec; [|done].
      intros [= <- <-]. by rewrite sapp_cons, <- (IH b' a').
Qed.

Lemma splitAt_unfold p s :
  splitAt p s
  = if String.prefix p s
    then Some (EmptyString,
               String.substring (String.length p)
                 (String.length s - String.length p) s)
    else match s with
         | EmptyString => None
         | String c s' =>
             match splitAt p s' with
             | Some (b, a) => Some (String c b, a)
             | None => None
             end
         end.
Proof. by destruct s. Qed.

(** A text without the pattern has it neither in a suffix nor in a
    prefix of it. *)
Lemma splitAt_None_suffix p w : forall s,
  splitAt p (w ++ s) = None -> splitAt p s = None.
Proof.
  induction w as [|c w IH]; intros s; [done|].
  rewrite sapp_cons, (splitAt_unfold p (String c (w ++ s))).
  destruct (String.prefix p (String c (w ++ s))); [done|].
  destruct (splitAt p (w ++ s)) as [[b a]|] eqn:Hrec; [done|].
  intros _. by apply IH.
Qed.

Lemma splitAt_None_prefix p : forall x y,
  splitAt p (x ++ y) = None -> splitAt p x = None.
Proof.
  induction x as [|c x IH]; intros y; rewrite (splitAt_unfold p (_ ++ y)).
  - destruct (String.prefix p ("" ++ y)) eqn:Hp; [done|]. intros _.
    rewrite splitAt_unfold.
    destruct (String.prefix p "") eqn:Hp0; [|done].
    by rewrite (prefix_app p "" y Hp0) in Hp.
  - destruct (String.prefix p (String c x ++ y)) eqn:Hp; [done|].
    rewrite sapp_cons.
    destruct (splitAt p (x ++ y)) as [[b a]|] eqn:Hrec; [done|]. intros _.
    rewrite splitAt_unfold.
    destruct (String.prefix p (String c x)) eqn:Hp0.
    + by rewrite (prefix_app p _ y Hp0) in Hp.
    + by rewrite (IH y Hrec).
Qed.

(** The text before the first occurrence of a pattern does not hold the
    pattern. *)
Lemma splitAt_before p : forall s b a,
  String.prefix p "" = false ->
  splitAt p s = Some (b, a) -> splitAt p b = None.
Proof.
  intros s b a Hp0. revert b a.
  induction s as [|c s IH]; intros b a; rewrite splitAt_unfold.
  - rewrite Hp0. done.
  - destruct (String.prefix p (String c s)) eqn:Hp.
    + intros [= <- _]. rewrite splitAt_unfold. by rewrite Hp0.
    + destruct (splitAt p s) as [[b' a']|] eqn:Hrec; [|done].
      intros [= <- <-]. rewrite splitAt_unfold.
      destruct (String.prefix p (String c b')) eqn:Hpb.
      * apply splitAt_Some in Hrec. subst s.
        rewrite <- (sapp_cons c b' (p ++ a')) in Hp.
        by rewrite (prefix_app p (String c b') (p ++ a') Hpb) in Hp.
      * by rewrite (IH b' a' eq_refl).
Qed.

Lemma trim_keeps_None p s : splitAt p s = None -> splitAt p (trim s) = None.
Proof.
  intros Hs. unfold trim.
  destruct (trimStart_suffix s) as [w Hw].
  destruct (trimEnd_prefix (trimStart s)) as [v Hv].
  rewrite Hw in Hs. apply splitAt_None_suffix in Hs.
  rewrite Hv in Hs. by apply splitAt_None_prefix in Hs.
Qed.

Lemma codeBlockMatch_None s : splitAt "```" s = None -> codeBlockMatch s = None.
Proof. intros Hs. unfold codeBlockMatch. by rewrite Hs. Qed.

Lemma codeBlockMatch_captured s captured :
  codeBlockMatch s = Some captured -> splitAt "```" captured = None.
Proof.
  unfold codeBlockMatch.
  destruct (splitAt "```" s) as [[b afterOpen]|]; [|done].
  destruct (splitAt "```" (trimStart _)) as [[captured' a]|] eqn:Hclose; [|done].
  intros [= <-]. by eapply splitAt_before.
Qed.

Lemma substring_after p r :
  String.substring (String.length p) (String.length (p ++ r) - String.length p)
    (p ++ r) = r.
Proof.
  assert (Hp : String.prefix p (p ++ r) = true).
  { induction p as [|a p IH]; [apply prefix_nil|].
    rewrite sapp_cons. cbn. by destruct (ascii_dec a a). }
  pose proof (prefix_split p (p ++ r) Hp) as Heq.
  by apply (inj (String.append p)) in Heq.
Qed.

(** *** Texts without a backquote *)

Lemma noBackquote_app s t :
  noBackquote (s ++ t) = noBackquote s && noBackquote t.
Proof.
  induction s as [|c s IH]; [done|].
  rewrite sapp_cons. cbn. by rewrite IH, andb_assoc.
Qed.

Lemma noBackquote_trimStart s : noBackquote s = true -> noBackquote (trimStart s) = true.
Proof.
  intros Hs. destruct (trimStart_suffix s) as [w Hw].
  rewrite Hw, noBackquote_app in Hs. by apply andb_prop in Hs as [_ ?].
Qed.

Lemma splitAt_found pre r :
  noBackquote pre = true -> splitAt "```" (pre ++ "```" ++ r) = Some (pre, r).
Proof.
  induction pre as [|c pre IH]; intros Hpre.
  - rewrite sapp_nil_l, splitAt_unfold.
    rewrite (prefix_app "```" "```" r eq_refl).
    by rewrite (substring_after "```" r).
  - cbn in Hpre. apply andb_prop in Hpre as [Hc Hpre].
    apply negb_true_iff, Ascii.eqb_neq in Hc.
    rewrite sapp_cons, splitAt_unfold.
    assert (Hp : String.prefix "```" (String c (pre ++ "```" ++ r)) = false).
    { apply prefix_cons_ne. congruence. }
    by rewrite Hp, (IH Hpre).
Qed.

Lemma noBackquote_no_fence s : noBackquote s = true -> splitAt "```" s = None.
Proof.
  induction s as [|c s IH]; intros Hs; [done|].
  cbn in Hs. apply andb_prop in Hs as [Hc Hs].
  apply negb_true_iff, Ascii.eqb_neq in Hc.
  rewrite splitAt_unfold.
  assert (Hp : String.prefix "```" (String c s) = false).
  { apply prefix_cons_ne. congruence. }
  by rewrite Hp, (IH Hs).
Qed.

Lemma prefix_json_app inner rest :
  noBackquote inner = true ->
  String.prefix "json" inner = false ->
  String.prefix "json" (inner ++ "```" ++ rest) = false.
Proof.
  assert (Hstep : forall a p c s t,
             a <> "`"%char ->
             (String.prefix p s = false ->
              noBackquote s = true -> String.prefix p (s ++ t) = false) ->
             String.prefix (String a p) (String c s) = false ->
             noBackquote (String c s) = true ->
             String.prefix (String a p) (String c s ++ t) = false).
  { intros a p c s t Ha IH. rewrite sapp_cons, !prefix_cons.
    destruct (ascii_dec a c); [|done]. intros Hp Hno. apply IH; [done|].
    cbn in Hno. by apply andb_prop in Hno as [_ ?]. }
  assert (Hend : forall a p t,
             a <> "`"%char ->
             String.prefix (String a p) ("" ++ "```" ++ t) = false).
  { intros a p t Ha. by apply prefix_cons_ne. }
  intros Hno Hp. revert Hp Hno.
  destruct inner as [|c1 inner]; [intros; by apply Hend|].
  apply Hstep; [done|].
  destruct inner as [|c2 inner]; [intros; by apply Hend|].
  apply Hstep; [done|].
  destruct inner as [|c3 inner]; [intros; by apply Hend|].
  apply Hstep; [done|].
  destruct inner as [|c4 inner]; [intros; by apply Hend|].
  apply Hstep; [done|].
  intros Hp _. by rewrite prefix_nil in Hp.
Qed.

End StringFacts.

(** ** Unwrapping the response *)

Module ExtractJsonFacts.
Import Js Parser MoreSpec TextSpec StringFacts.

Lemma extractJson_without_fence text :
  splitAt "```" text = None -> extractJson text = trim text.
Proof.
  intros Hnone. unfold extractJson.
  by rewrite (codeBlockMatch_None _ (trim_keeps_None _ _ Hnone)).
Qed.

(** The text after the opening fence, once the optional [json] is taken. *)
Lemma codeBlockMatch_of_fence pre afterOpen inner post :
  noBackquote pre = true ->
  noBackquote inner = true ->
  (if String.prefix "json" afterOpen
   then String.substring 4 (String.length afterOpen - 4) afterOpen
   else afterOpen) = inner ++ "```" ++ post ->
  codeBlockMatch (pre ++ "```" ++ afterOpen) = Some (trimStart inner).
Proof.
  intros Hpre Hinner Htag. unfold codeBlockMatch.
  rewrite (splitAt_found pre afterOpen Hpre), Htag.
  rewrite (trimStart_app inner ("```" ++ post)) by done.
  by rewrite (splitAt_found _ post (noBackquote_trimStart _ Hinner)).
Qed.

Lemma trim_around_fence pre body post :
  trim (pre ++ "```" ++ body ++ "```" ++ post)
  = trimStart pre ++ "```" ++ body ++ "```" ++ trimEnd post.
Proof.
  unfold trim. rewrite (trimStart_app pre) by done.
  rewrite <- (sapp_assoc body), <- (sapp_assoc "```"), <- (sapp_assoc (trimStart pre)).
  rewrite trimEnd_app.
  - by rewrite !sapp_assoc.
  - by rewrite !rev_app.
Qed.

Lemma extractJson_of_fence pre afterOpen inner post :
  noBackquote pre = true ->
  noBackquote inner = true ->
  (forall rest,
      (if String.prefix "json" (afterOpen ++ "```" ++ rest)
       then String.substring 4 (String.length (afterOpen ++ "```" ++ rest) - 4)
              (afterOpen ++ "```" ++ rest)
       else afterOpen ++ "```" ++ rest) = inner ++ "```" ++ rest) ->
  extractJson (pre ++ "```" ++ afterOpen ++ "```" ++ post) = trim inner.
Proof.
  intros Hpre Hinner Htag. unfold extractJson.
  rewrite trim_around_fence.
  rewrite (codeBlockMatch_of_fence (trimStart pre) _ inner (trimEnd post));
    [|by apply noBackquote_trimStart|done|apply Htag].
  apply trim_trimStart.
Qed.

End ExtractJsonFacts.

(** ** Parse failures: the claim *)

Section ParseFailureClaim.
Import Js Parser Spec MoreSpec TextSpec StringFacts ExtractJsonFacts.

Variable JSON_parse : string -> string + json.

(** The index in an error message is the decimal numeral of the position:
    read back as a numeral it is that position, so two positions never
    share a text. *)
Lemma showIndex_reads_back (index : nat) :
  option_map Nat.of_uint (NilZero.uint_of_string (showIndex index))
  = Some index.
Proof.
  unfold showIndex. rewrite NilZero.usu.
  - cbn. by rewrite DecimalNat.Unsigned.of_to.
  - rewrite <- (DecimalNat.Unsigned.of_to index) at 1.
    rewrite DecimalNat.Unsigned.to_of. apply unorm_nonnil.
Qed.

(** C3. [parseResponse] returns either an error or a result, and the error
    exactly when [JSON.parse] rejects the text [extractJson] made of the
    response, or the payload is no object, or [items] is no array, or
    [total] is no number or is negative, or some item has a name that is
    not a non-empty string or a price that is not a number or is negative.
    Every error wraps a reason and ends with the response as received; when
    an item is the cause, the reason gives the position of the first such
    item, as its decimal numeral, and the message of its validation; a
    payload whose [items] is the text [not-an-array] is an error. The text
    [JSON.parse] is given is the response with its code fence stripped: the
    trimmed body of the fence when the response holds one, with or without
    the [json] tag and whatever stands around the fence, and the trimmed
    response when it holds no fence. *)
Theorem C3_parse_failure :
  forall responseText : string,
    ((exists message, parseResponse JSON_parse responseText = inl message)
     <-> mustFail (JSON_parse (extractJson responseText)) = true)
    /\ (forall message,
           parseResponse JSON_parse responseText = inl message ->
           exists reason,
             message = "Failed to parse LLM response: " ++ reason
                       ++ nl ++ nl ++ "Response:" ++ nl ++ responseText)
    /\ (forall members rawItems total,
           JSON_parse (extractJson responseText) = inr (JObj members) ->
           assoc "items" members = Some (JArr rawItems) ->
           assoc "total" members = Some (JNum total) ->
           PrimFloat.ltb total 0 = false ->
           forallb itemValid rawItems = false ->
           exists k raw reason,
             rawItems !! k = Some raw
             /\ itemValid raw = false
             /\ forallb itemValid (take k rawItems) = true
             /\ normalizeRawItem raw = inl reason
             /\ parseResponse JSON_parse responseText
                = inl ("Failed to parse LLM response: "
                       ++ ("Invalid item at index " ++ showIndex k ++ ": " ++ reason)
                       ++ nl ++ nl ++ "Response:" ++ nl ++ responseText)
             /\ option_map Nat.of_uint (NilZero.uint_of_string (showIndex k))
                = Some k)
    /\ (forall members total,
           JSON_parse (extractJson responseText) = inr (JObj members) ->
           assoc "items" members = Some (JStr "not-an-array") ->
           assoc "total" members = Some (JNum total) ->
           parseResponse JSON_parse responseText
           = inl ("Failed to parse LLM response: "
                  ++ "Response.items is not an array"
                  ++ nl ++ nl ++ "Response:" ++ nl ++ responseText))
    /\ (forall pre inner post,
           noBackquote pre = true ->
           noBackquote inner = true ->
           (responseText = pre ++ "```" ++ ("json" ++ inner) ++ "```" ++ post ->
            extractJson responseText = trim inner)
           /\ (String.prefix "json" inner = false ->
               responseText = pre ++ "```" ++ inner ++ "```" ++ post ->
               extractJson responseText = trim inner))
    /\ (splitAt "```" responseText = None ->
        extractJson responseText = trim responseText).
Proof.
  intros responseText.
  split; [|split; [|split; [|split; [|split]]]].
  - split.
    + intros [message Hfail]. apply parseBody_fails_iff.
      unfold parseResponse in Hfail.
      destruct (parseBody JSON_parse responseText); [eauto|discriminate].
    + intros Hmust. apply parseBody_fails_iff in Hmust as [reason Hreason].
      unfold parseResponse. rewrite Hreason. eauto.
  - intros message. unfold parseResponse.
    destruct (parseBody JSON_parse responseText) as [reason|data];
      [|discriminate].
    intros [= <-]. eauto.
  - intros members rawItems total Hparsed Hitems Htotal Hpos Hbad.
    destruct (normalizeItems_invalid rawItems 0 Hbad)
      as (k & raw & reason & Hk & Hraw & Hpre & Hreason & Herr).
    exists k, raw, reason.
    split; [done|]. split; [done|]. split; [done|]. split; [done|].
    split; [|apply showIndex_reads_back].
    unfold parseResponse, parseBody. rewrite Hparsed. cbn.
    by rewrite Hitems, Htotal, Hpos, Herr.
  - intros members total Hparsed Hitems _.
    unfold parseResponse, parseBody. rewrite Hparsed. cbn.
    by rewrite Hitems.
  - intros pre inner post Hpre Hinner. split.
    + intros ->. apply extractJson_of_fence; [done|done|]. intros rest.
      rewrite sapp_assoc.
      rewrite (prefix_app "json" "json" (inner ++ "```" ++ rest) eq_refl).
      apply (substring_after "json").
    + intros Htag ->. apply extractJson_of_fence; [done|done|]. intros rest.
      by rewrite (prefix_json_app inner rest Hinner Htag).
  - apply extractJson_without_fence.
Qed.

End ParseFailureClaim.

Section ParseFailureOnSamples.
Import Js Parser Spec MoreSpec TextSpec.
Import RunExamples MoreRunExamples.

(** An answer that carries, in a fence and after some prose, a payload
    whose second item has no name is an error that names position 1 and
    ends with the answer as received; the malformed response of the
    specification is an error too. *)
Lemma C3_parse_failure_witness :
  parseResponse parseKnownMore namelessResponse
  = inl ("Failed to parse LLM response: "
         ++ "Invalid item at index 1: Invalid item: missing or invalid name field"
         ++ nl ++ nl ++ "Response:" ++ nl ++ namelessResponse)
  /\ extractJson namelessResponse = namelessText
  /\ parseResponse parseKnownMore malformedText
     = inl ("Failed to parse LLM response: " ++ "Response.items is not an array"
            ++ nl ++ nl ++ "Response:" ++ nl ++ malformedText).
Proof.
  destruct (C3_parse_failure parseKnownMore namelessResponse)
    as (_ & _ & Hitem & _ & Hfence & _).
  destruct (Hfence ("Here you go:" ++ nl) (nl ++ namelessText ++ nl) "")
    as (Hbody & _); [reflexivity..|].
  assert (Hjson : extractJson namelessResponse = namelessText).
  { rewrite Hbody; [|reflexivity]. vm_compute. reflexivity. }
  split; [|split; [exact Hjson|]].
  - destruct (Hitem [("items", JArr [JObj [("name", JStr "Milk");
                                            ("price", JNum 2)];
                                      JObj [("price", JNum 3)]]);
                     ("total", JNum 5)]
                [JObj [("name", JStr "Milk"); ("price", JNum 2)];
                 JObj [("price", JNum 3)]] 5%float)
      as (k & raw & reason & Hk & Hraw & Hpre & Hreason & Herr & _);
      [by rewrite Hjson|reflexivity..|].
    destruct k as [|[|k]]; [| |discriminate].
    + injection Hk as <-. discriminate.
    + injection Hk as <-. injection Hreason as <-. exact Herr.
  - apply (proj1 (proj2 (proj2 (proj2 (C3_parse_failure parseKnownMore
                                         malformedText))))
             [("items", JStr "not-an-array"); ("total", JNum 10)] 10%float);
      vm_compute; reflexivity.
Defined.

End ParseFailureOnSamples.

Section ExtractJsonExtras.
Import Js Parser MoreSpec TextSpec StringFacts ExtractJsonFacts.

Variable JSON_parse : string -> string + json.

(** X12. A body wrapped in a markdown fence is recovered: for a body and a
    leading text without backquotes, whatever follows the closing fence,
    [extractJson] returns the trimmed body, with the [json] tag after the
    opening fence and, when the body does not itself start with [json],
    without it. *)
Theorem X12_fence_is_unwrapped :
  forall pre inner post : string,
    noBackquote pre = true ->
    noBackquote inner = true ->
    extractJson (pre ++ "```" ++ ("json" ++ inner) ++ "```" ++ post) = trim inner
    /\ (String.prefix "json" inner = false ->
        extractJson (pre ++ "```" ++ inner ++ "```" ++ post) = trim inner).
Proof.
  intros pre inner post Hpre Hinner. split.
  - apply extractJson_of_fence; [done|done|]. intros rest.
    rewrite sapp_assoc.
    rewrite (prefix_app "json" "json" (inner ++ "```" ++ rest) eq_refl).
    apply (substring_after "json").
  - intros Htag. apply extractJson_of_fence; [done|done|]. intros rest.
    by rewrite (prefix_json_app inner rest Hinner Htag).
Qed.

(** X13. [extractJson] is idempotent and its result carries no white
    space at either end; a text that holds no fence is only trimmed. *)
Theorem X13_extractJson_idempotent :
  forall text : string,
    extractJson (extractJson text) = extractJson text
    /\ trim (extractJson text) = extractJson text
    /\ (splitAt "```" text = None -> extractJson text = trim text).
Proof.
  intros text. split; [|split].
  - unfold extractJson at 2 3.
    destruct (codeBlockMatch (trim text)) as [captured|] eqn:Hmatch.
    + rewrite extractJson_without_fence, trim_idem; [done|].
      apply trim_keeps_None. by eapply codeBlockMatch_captured.
    + unfold extractJson. by rewrite trim_idem, Hmatch.
  - unfold extractJson.
    destruct (codeBlockMatch (trim text)); apply trim_idem.
  - apply extractJson_without_fence.
Qed.

(** X14. Wrapping a response that itself holds no backquote in a fence
    with the [json] tag, with any text without backquotes before it and
    any text after it, does not change what the parser makes of it: the
    same items and total, or the same reason for failing. *)
Theorem X14_fence_does_not_change_parse :
  forall pre inner post : string,
    noBackquote pre = true ->
    noBackquote inner = true ->
    parseBody JSON_parse (pre ++ "```" ++ ("json" ++ inner) ++ "```" ++ post)
    = parseBody JSON_parse inner
    /\ forall data,
         parseResponse JSON_parse
           (pre ++ "```" ++ ("json" ++ inner) ++ "```" ++ post) = inr data
         <-> parseResponse JSON_parse inner = inr data.
Proof.
  intros pre inner post Hpre Hinner.
  assert (Hsame : extractJson (pre ++ "```" ++ ("json" ++ inner) ++ "```" ++ post)
                  = extractJson inner).
  { rewrite (extractJson_without_fence inner)
      by by apply noBackquote_no_fence.
    apply extractJson_of_fence; [done|done|]. intros rest.
    rewrite sapp_assoc.
    rewrite (prefix_app "json" "json" (inner ++ "```" ++ rest) eq_refl).
    apply (substring_after "json"). }
  assert (Hbody : parseBody JSON_parse
                    (pre ++ "```" ++ ("json" ++ inner) ++ "```" ++ post)
                  = parseBody JSON_parse inner).
  { unfold parseBody. by rewrite Hsame. }
  split; [done|]. intros data. unfold parseResponse. rewrite Hbody.
  by destruct (parseBody JSON_parse inner).
Qed.

End ExtractJsonExtras.

(** ** The further properties on the sample data *)

Section MoreWitnesses.
Import Js Parser Extract Spec MoreSpec Sequencing.
Import Examples RunExamples MoreRunExamples.

(** Both passes keep the four sample items in place. The callback's own
    record is of the two names the batch source left open, and [APL] ends
    with the name the callback gave, its amounts as parsed. *)
Lemma X5_resolution_is_sound_witness :
  length (fst (fst sampleOrchestration)) = length sampleItems
  /\ threaded appleCallback [] (snd sampleOrchestration) ["APL"; "KS BRD"]
  /\ exists f,
       fst (fst sampleOrchestration) !! 1 = Some f
       /\ sameAmounts
            (InternalReceiptItem.mk "APL" 3 1 false None None None true) f
       /\ InternalReceiptItem.name f = "Fuji Apple".
Proof.
  destruct (X5_resolution_is_sound milkBatch (bothPasses appleCallback)
              sampleResponse sampleItems (fst (fst sampleOrchestration)) []
              (snd (fst sampleOrchestration)) (snd sampleOrchestration))
    as (Hlen & Hthr & Hitems).
  { vm_compute. reflexivity. }
  split; [exact Hlen|]. split; [exact (Hthr appleCallback eq_refl)|].
  destruct (Hitems 1 (InternalReceiptItem.mk "APL" 3 1 false None None None true))
    as (f & Hf & Hsame & _); [reflexivity|].
  exists f. split; [exact Hf|]. split; [exact Hsame|].
  assert (Hval : Some (InternalReceiptItem.mk "Fuji Apple" 3 1 false None None
                         None false) = Some f) by exact Hf.
  by injection Hval as <-.
Defined.

(** Nothing is flagged in [settledItems]: no source is consulted. *)
Lemma X6_nothing_to_verify_witness :
  orchestrate failingBatch (bothPasses flakyCallback) sampleResponse
    settledItems [] = (settledItems, [], []).
Proof.
  apply X6_nothing_to_verify. left. reflexivity.
Defined.

(** Three items are flagged; the callback is applied twice, and its own
    record holds two names. *)
Lemma X7_callback_invocations_bounded_witness :
  NoDup (map callIndex (snd sampleOrchestration))
  /\ length (snd sampleOrchestration)
     <= length (List.filter InternalReceiptItem.needsVerification sampleItems)
  /\ threaded appleCallback [] (snd sampleOrchestration) ["APL"; "KS BRD"].
Proof.
  destruct (X7_callback_invocations_bounded milkBatch
              (bothPasses appleCallback) sampleResponse sampleItems
              (fst (fst sampleOrchestration)) []
              (snd (fst sampleOrchestration)) (snd sampleOrchestration))
    as (Hnodup & Hle & _ & Hthr).
  { vm_compute. reflexivity. }
  exact (conj Hnodup (conj Hle (Hthr appleCallback eq_refl))).
Defined.

(** The entry for [APL] is an application of the sample callback to that
    name; its context holds the response and lists four items, with [APL]
    at the application's own position. *)
Lemma X8_context_is_consistent_witness :
  (exists w0 w1,
      appleCallback "APL" (callContext appleCall) w0
      = (Returned (Some (VerificationResult.mk "Fuji Apple")), w1))
  /\ VerificationContext.rawText (callContext appleCall) = sampleResponse
  /\ length (VerificationContext.allItems (callContext appleCall))
     = length sampleItems
  /\ VerificationContext.allItems (callContext appleCall) !! 1
     = Some (ReceiptItem.mk "APL" 3 1 false None None None).
Proof.
  destruct (X8_context_is_consistent milkBatch (bothPasses appleCallback)
              sampleResponse sampleItems (fst (fst sampleOrchestration)) []
              (snd (fst sampleOrchestration)) (snd sampleOrchestration)
              appleCall)
    as ((callback & w0 & w1 & Hcb & _ & Happ) & Htext & Hlen
        & (p & entry & Hp & Hentry & _ & ->)).
  - vm_compute. reflexivity.
  - apply list_elem_of_In. vm_compute. left. reflexivity.
  - assert (Hcb' : Some appleCallback = Some callback) by exact Hcb.
    injection Hcb' as <-.
    assert (Hp' : Some (InternalReceiptItem.mk "APL" 3 1 false None None None
                          true) = Some p) by exact Hp.
    injection Hp' as <-.
    split; [by exists w0, w1|]. split; [exact Htext|].
    split; [exact Hlen|exact Hentry].
Defined.

(** The sample payload has five items, one of them an attachment. *)
Lemma X10_parse_keeps_substantive_items_witness :
  exists payload rawItems,
    parseKnown (extractJson sampleResponse) = inr payload
    /\ get "items" payload = Some (JArr rawItems)
    /\ map InternalReceiptItem.name sampleItems
       = map rawName
           (List.filter (fun raw => negb (rawIsAttachment raw)) rawItems)
    /\ length sampleItems + length (List.filter rawIsAttachment rawItems)
       = length rawItems.
Proof.
  apply (X10_parse_keeps_substantive_items parseKnown sampleResponse
           {| ParsedReceiptData.items := sampleItems;
              ParsedReceiptData.total := 24.5 |}).
  vm_compute. reflexivity.
Defined.

(** The data of the sample call is well formed. *)
Lemma X11_returned_data_is_well_formed_witness :
  PrimFloat.ltb (ReceiptData.total sampleData) 0 = false
  /\ Forall (fun item =>
               ReceiptItem.name item <> ""
               /\ PrimFloat.ltb (ReceiptItem.price item) 0 = false)
            (ReceiptData.items sampleData).
Proof.
  apply (X11_returned_data_is_well_formed parseKnown prompt fencedOracle
           milkBatch tt (bothPasses appleCallback) [] (snd (fst sampleRun))
           sampleData (snd sampleRun)).
  vm_compute. reflexivity.
Defined.

(** A chatty answer around a fenced payload. *)
Lemma X12_fence_is_unwrapped_witness :
  extractJson (chattyPrefix ++ "```" ++ ("json" ++ (nl ++ sampleText ++ nl))
               ++ "```" ++ chattySuffix)
  = trim (nl ++ sampleText ++ nl).
Proof.
  apply (X12_fence_is_unwrapped chattyPrefix (nl ++ sampleText ++ nl)
           chattySuffix); vm_compute; reflexivity.
Defined.

(** The chatty answer parses to what the bare payload parses to. *)
Lemma X14_fence_does_not_change_parse_witness :
  parseBody parseKnown
    (chattyPrefix ++ "```" ++ ("json" ++ (nl ++ sampleText ++ nl))
     ++ "```" ++ chattySuffix)
  = parseBody parseKnown (nl ++ sampleText ++ nl).
Proof.
  apply (X14_fence_does_not_change_parse parseKnown chattyPrefix
           (nl ++ sampleText ++ nl) chattySuffix); vm_compute; reflexivity.
Defined.

End MoreWitnesses.

(** ** The callback as a fallback, and the unclosed fence *)

Section FallbackExtras.
Import Js Parser Extract Spec MoreSpec TextSpec Sequencing.
Import ExtractFacts StringFacts ExtractJsonFacts.

Context {World : Type}.
Variable batchVerifyItems :
  list InternalReceiptItem.t -> string + gmap string string.

Lemma autoVerifyPass_unresolved (options : option (@ExtractOptions World))
    parsedItems k p :
  parsedItems !! k = Some p ->
  (autoVerifyEnabled options = false
   \/ forall verificationMap verifiedName,
        batchVerifyItems
          (List.filter InternalReceiptItem.needsVerification parsedItems)
        = inr verificationMap ->
        verificationMap !! InternalReceiptItem.name p = Some verifiedName ->
        verifiedName = "") ->
  autoVerifyPass batchVerifyItems options parsedItems !! k = Some p.
Proof.
  intros Hk Hno.
  destruct (autoVerifyPass_cases batchVerifyItems options parsedItems)
    as [->|(verificationMap & Hon & Hbatch & ->)]; [done|].
  rewrite lookup_map, Hk. cbn. f_equal.
  destruct Hno as [Hoff|Hno]; [congruence|].
  unfold applyVerificationMap.
  destruct (InternalReceiptItem.needsVerification p); [|done].
  destruct (verificationMap !! InternalReceiptItem.name p) as [v|] eqn:Hm;
    [|done].
  by rewrite (Hno verificationMap v Hbatch Hm).
Qed.

(** X15. The callback is the fallback of the batch pass: with a callback
    configured, a flagged item that the batch pass did not resolve, because
    automatic verification is off, or the batch source threw, or its map
    has no entry or an empty name for the item's name, is offered to the
    callback under its parsed name: the callback is applied to that name,
    the application is an entry of the callback's history from the
    caller's world to the one the run ends in, and the item ends as the
    outcome of that application makes it. *)
Theorem X15_unresolved_items_reach_the_callback :
  forall (options : option (@ExtractOptions World))
         (callback : @VerificationCallback World) (responseText : string)
         (parsedItems final : list InternalReceiptItem.t) (w w' : World)
         (log : list Call) (k : nat) (p : InternalReceiptItem.t),
    orchestrate batchVerifyItems options responseText parsedItems w
    = (final, w', log) ->
    callbackOf options = Some callback ->
    parsedItems !! k = Some p ->
    InternalReceiptItem.needsVerification p = true ->
    (autoVerifyEnabled options = false
     \/ forall verificationMap verifiedName,
          batchVerifyItems
            (List.filter InternalReceiptItem.needsVerification parsedItems)
          = inr verificationMap ->
          verificationMap !! InternalReceiptItem.name p = Some verifiedName ->
          verifiedName = "") ->
    threaded callback w log w'
    /\ exists c w0 w1,
         c ∈ log
         /\ callIndex c = k
         /\ callName c = InternalReceiptItem.name p
         /\ callback (InternalReceiptItem.name p) (callContext c) w0
            = (callOutcome c, w1)
         /\ final !! k = Some (applyOutcome (callOutcome c) p).
Proof.
  intros options callback responseText parsedItems final w w' log k p
    Hrun Hcb Hk Hflag Hno.
  unfold orchestrate in Hrun.
  destruct (callbackPass_threaded _ _ _ _ _ _ _ Hrun) as (Hthr & _).
  specialize (Hthr callback Hcb). split; [exact Hthr|].
  pose proof (autoVerifyPass_unresolved options parsedItems k p Hk Hno) as Hk1.
  destruct (callbackPass_spec _ _ _ _ _ _ _ Hrun) as (_ & Hidx & _ & Hcalls).
  rewrite Hcb in Hidx.
  assert (Hin : k ∈ map callIndex log).
  { rewrite Hidx. apply flaggedFrom_elem. by exists k, p. }
  apply list_elem_of_In, in_map_iff in Hin as (c & Hck & Hc).
  apply list_elem_of_In in Hc. rewrite Forall_forall in Hcalls.
  destruct (Hcalls c Hc) as (item & Hi & _ & Hn & _ & Hout).
  rewrite Hck in Hi, Hout. rewrite Hk1 in Hi. injection Hi as <-.
  destruct (threaded_elem callback log w w' c Hthr Hc) as (w0 & w1 & Happ).
  rewrite Hn in Happ. by exists c, w0, w1.
Qed.

Lemma noBackquote_prefix_part s t :
  noBackquote (s ++ t) = true -> noBackquote s = true /\ noBackquote t = true.
Proof. rewrite noBackquote_app. apply andb_prop. Qed.

Lemma noBackquote_trimEnd s : noBackquote s = true -> noBackquote (trimEnd s) = true.
Proof.
  intros Hs. destruct (trimEnd_prefix s) as [w Hw].
  rewrite Hw in Hs. by apply noBackquote_prefix_part in Hs as [? _].
Qed.

(** X16. A fence that is opened and never closed is not unwrapped: when no
    backquote stands before or after the only fence, [extractJson] returns
    the whole text, trimmed, fence included. *)
Theorem X16_unclosed_fence_is_kept :
  forall pre rest : string,
    noBackquote pre = true ->
    noBackquote rest = true ->
    extractJson (pre ++ "```" ++ rest) = trim (pre ++ "```" ++ rest).
Proof.
  intros pre rest Hpre Hrest. unfold extractJson.
  assert (Htrim : trim (pre ++ "```" ++ rest)
                  = trimStart pre ++ "```" ++ trimEnd rest).
  { unfold trim. rewrite (trimStart_app pre) by done.
    rewrite <- (sapp_assoc (trimStart pre)), trimEnd_app; [apply sapp_assoc|].
    by rewrite rev_app. }
  rewrite Htrim. unfold codeBlockMatch.
  rewrite (splitAt_found _ (trimEnd rest) (noBackquote_trimStart _ Hpre)).
  pose proof (noBackquote_trimEnd _ Hrest) as Hafter.
  assert (Htag : noBackquote
                   (if String.prefix "json" (trimEnd rest)
                    then String.substring 4 (String.length (trimEnd rest) - 4)
                           (trimEnd rest)
                    else trimEnd rest) = true).
  { destruct (String.prefix "json" (trimEnd rest)) eqn:Hp; [|done].
    rewrite (prefix_split _ _ Hp) in Hafter.
    by apply noBackquote_prefix_part in Hafter as [_ ?]. }
  by rewrite (noBackquote_no_fence _ (noBackquote_trimStart _ Htag)).
Qed.

End FallbackExtras.

Section FallbackWitnesses.
Import Js Parser Extract Spec MoreSpec Sequencing.
Import RunExamples MoreRunExamples.

(** With a failing batch source, [KS BRD] reaches the callback, after
    [ORG MLK] and [APL]: the callback is applied to that name. *)
Lemma X15_unresolved_items_reach_the_callback_witness :
  threaded flakyCallback []
    (snd (orchestrate failingBatch (bothPasses flakyCallback)
            sampleResponse sampleItems []))
    ["ORG MLK"; "APL"; "KS BRD"]
  /\ exists c w0 w1,
       c ∈ snd (orchestrate failingBatch (bothPasses flakyCallback)
                  sampleResponse sampleItems [])
       /\ callIndex c = 2
       /\ callName c = "KS BRD"
       /\ flakyCallback "KS BRD" (callContext c) w0 = (callOutcome c, w1).
Proof.
  destruct (X15_unresolved_items_reach_the_callback failingBatch
              (bothPasses flakyCallback) flakyCallback sampleResponse
              sampleItems
              (fst (fst (orchestrate failingBatch (bothPasses flakyCallback)
                           sampleResponse sampleItems [])))
              []
              (snd (fst (orchestrate failingBatch (bothPasses flakyCallback)
                           sampleResponse sampleItems [])))
              (snd (orchestrate failingBatch (bothPasses flakyCallback)
                      sampleResponse sampleItems []))
              2 (InternalReceiptItem.mk "KS BRD" 8 1 false None None None true))
    as (Hthr & c & w0 & w1 & Hc & Hidx & Hname & Happ & _);
    try (vm_compute; reflexivity).
  - right. intros verificationMap verifiedName Hbatch. discriminate.
  - split; [exact Hthr|]. by exists c, w0, w1.
Defined.

(** An answer cut off after the opening fence. *)
Lemma X16_unclosed_fence_is_kept_witness :
  extractJson (chattyPrefix ++ "```" ++ ("json" ++ nl ++ sampleText))
  = trim (chattyPrefix ++ "```" ++ ("json" ++ nl ++ sampleText)).
Proof.
  apply X16_unclosed_fence_is_kept; vm_compute; reflexivity.
Defined.

End FallbackWitnesses.

(** ** The batch pass is keyed by name *)

Section BatchByName.
Import Js Parser Extract Spec MoreSpec ExtractFacts.

Context {World : Type}.
Variable batchVerifyItems :
  list InternalReceiptItem.t -> string + gmap string string.

Lemma applyVerificationMap_by_name verificationMap p q :
  InternalReceiptItem.name p = InternalReceiptItem.name q ->
  InternalReceiptItem.needsVerification p = true ->
  InternalReceiptItem.needsVerification q = true ->
  InternalReceiptItem.name (applyVerificationMap verificationMap p)
  = InternalReceiptItem.name (applyVerificationMap verificationMap q)
  /\ InternalReceiptItem.needsVerification (applyVerificationMap verificationMap p)
     = InternalReceiptItem.needsVerification
         (applyVerificationMap verificationMap q).
Proof.
  intros Hname Hp Hq. unfold applyVerificationMap. rewrite Hp, Hq, Hname.
  destruct (verificationMap !! InternalReceiptItem.name q) as [v|];
    [|by rewrite Hp, Hq].
  destruct (str_truthy (Some v)); [done|by rewrite Hp, Hq].
Qed.

(** X17. The batch pass resolves by name, not by position: two flagged
    items with the same name come out of it with the same name and the
    same flag, both resolved or both left as they were. *)
Theorem X17_batch_pass_is_keyed_by_name :
  forall (options : option (@ExtractOptions World))
         (parsedItems : list InternalReceiptItem.t) (i j : nat)
         (p q : InternalReceiptItem.t),
    parsedItems !! i = Some p ->
    parsedItems !! j = Some q ->
    InternalReceiptItem.name p = InternalReceiptItem.name q ->
    InternalReceiptItem.needsVerification p = true ->
    InternalReceiptItem.needsVerification q = true ->
    exists p1 q1,
      autoVerifyPass batchVerifyItems options parsedItems !! i = Some p1
      /\ autoVerifyPass batchVerifyItems options parsedItems !! j = Some q1
      /\ InternalReceiptItem.name p1 = InternalReceiptItem.name q1
      /\ InternalReceiptItem.needsVerification p1
         = InternalReceiptItem.needsVerification q1.
Proof.
  intros options parsedItems i j p q Hi Hj Hname Hp Hq.
  destruct (autoVerifyPass_cases batchVerifyItems options parsedItems)
    as [->|(verificationMap & _ & _ & ->)].
  - exists p, q. by rewrite Hp, Hq.
  - exists (applyVerificationMap verificationMap p),
      (applyVerificationMap verificationMap q).
    rewrite !lookup_map, Hi, Hj. split; [done|]. split; [done|].
    by apply applyVerificationMap_by_name.
Qed.

End BatchByName.

Section BatchByNameWitness.
Import Js Parser Extract.
Import RunExamples MoreRunExamples.

(** Both occurrences of [ORG MLK] are resolved alike. *)
Lemma X17_batch_pass_is_keyed_by_name_witness :
  exists p1 q1,
    autoVerifyPass milkBatch (bothPasses appleCallback) twiceItems !! 0 = Some p1
    /\ autoVerifyPass milkBatch (bothPasses appleCallback) twiceItems !! 4
       = Some q1
    /\ InternalReceiptItem.name p1 = InternalReceiptItem.name q1
    /\ InternalReceiptItem.needsVerification p1
       = InternalReceiptItem.needsVerification q1.
Proof.
  apply (X17_batch_pass_is_keyed_by_name milkBatch (bothPasses appleCallback)
           twiceItems 0 4
           (InternalReceiptItem.mk "ORG MLK" 12.5 1 false None (Some 1%float)
              None true)
           (InternalReceiptItem.mk "ORG MLK" 12.5 1 false None (Some 1%float)
              None true));
    reflexivity.
Defined.

End BatchByNameWitness.
